(** * Sales dashboard: the filtering and aggregation computations of [app.py]

    A shallow embedding of the data computations of the Streamlit script
    [src/app.py]: the filter on the transaction table, the KPI scalars, the
    [groupby(...)['total'].sum().sort_values(ascending=False)] summaries,
    the [head(10)] rankings, the daily series with its [cumsum], and the
    customer distributions ([pd.cut] on age, [value_counts]).

    Modelling conventions.
    - A [DataFrame] is the list of its rows, in row order; a [Series] is the
      list of its values, or an association list (index label, value) when
      the index matters ([groupby] and [value_counts] results).
    - The [total] column holds whole won amounts in an [int64] column.  Its
      [sum], [groupby(...).sum()] and [cumsum] are [int64] results and wrap
      around at 2^63; [mean] is a [float64] result.  Missing values in the
      columns read by the script are assumed absent, as the loader provides
      complete rows.
    - A [datetime64[ns]] value is its number of nanoseconds since the epoch;
      a [datetime.date] is its number of days since the epoch.
    - Python exceptions are the [Raises] outcomes of an error monad; code
      that assigns to a module-level frame runs in a state monad over the
      two loaded frames.
    - Calls into [st] and [px] only display values and are left out. *)

From Stdlib Require Import ZArith List String Bool Lia Permutation Sorted SpecFloat.
Import ListNotations.
Local Open Scope string_scope.
Local Open Scope Z_scope.

(** ** Outcomes of Python expressions *)

Inductive exn : Type :=
| IndexError   (* tuple index out of range *)
| KeyError.    (* column label absent from a frame *)

Inductive outcome (A : Type) : Type :=
| Returns (a : A)
| Raises (e : exn).

Arguments Returns {A} a.
Arguments Raises {A} e.

Definition obind {A B : Type} (m : outcome A) (k : A -> outcome B) : outcome B :=
  match m with
  | Returns a => k a
  | Raises e => Raises e
  end.

Declare Scope outcome_scope.
Delimit Scope outcome_scope with outcome.
Notation "x <- m ;; k" := (obind m (fun x => k))
  (at level 61, m at next level, right associativity) : outcome_scope.

(** [t[i]] on a Python tuple. *)
Definition tuple_get {A : Type} (t : list A) (i : nat) : outcome A :=
  match nth_error t i with
  | Some a => Returns a
  | None => Raises IndexError
  end.

(** ** The two tables *)

Definition Timestamp : Type := Z.

Definition ns_per_day : Z := 86400000000000.

(** [Series.dt.date] and [Timestamp.date()]: the calendar day of a timestamp. *)
Definition dt_date (ts : Timestamp) : Z := ts / ns_per_day.

(** A row of [sales_df], with the columns the script reads. *)
Record sale : Type := {
  date : Timestamp;
  customer_id : string;
  name : string;
  product_name : string;
  category : string;
  price : Z;
  quantity : Z;
  total : Z;
  payment : string;
  region : string;
  grade : string
}.

Module Customer.

(** A row of [customer_df] as loaded from the CSV file. *)
Record row : Type := {
  customer_id : string;
  name : string;
  age : Z;
  gender : string;
  region : string;
  segment : string;
  join_date : Timestamp;
  last_purchase_date : Timestamp
}.

(** [customer_df]: the loaded rows and the column ['age_group'], which
    the frame has only once line 170 has assigned it.  A cell of that
    column is a category label or a missing value. *)
Record frame : Type := {
  rows : list row;
  age_group : option (list (option string))
}.

End Customer.

(** ** Keys of [groupby], [unique] and [value_counts] *)

Class GroupKey (K : Type) : Type := {
  key_eqb : K -> K -> bool;
  key_leb : K -> K -> bool;
  key_eqb_spec : forall a b : K, reflect (a = b) (key_eqb a b)
}.

#[export] Instance string_GroupKey : GroupKey string := {|
  key_eqb := String.eqb;
  key_leb := String.leb;
  key_eqb_spec := String.eqb_spec
|}.

#[export] Instance Z_GroupKey : GroupKey Z := {|
  key_eqb := Z.eqb;
  key_leb := Z.leb;
  key_eqb_spec := Z.eqb_spec
|}.

(** ** Series operations *)

(** The largest [int64] value, 2^63 - 1. *)
Definition int64_max : Z := 9223372036854775807.

(** The [int64] value of an integer: its representative modulo 2^64 in
    [-2^63, 2^63). *)
Definition wrap64 (z : Z) : Z :=
  (z + 9223372036854775808) mod 18446744073709551616 - 9223372036854775808.

(** [int64] addition. *)
Definition add64 (a b : Z) : Z := wrap64 (a + b).

(** The sum of a list of integers in [Z], without wrap-around.  No
    computation of the script is this sum; it serves to state results and
    to say that a column adds up without overflow. *)
Fixpoint list_sum (l : list Z) : Z :=
  match l with
  | [] => 0
  | x :: l' => x + list_sum l'
  end.

(** [Series.sum()] of an [int64] series: 0 on an empty series, and
    wrapping around on overflow. *)
Fixpoint series_sum (l : list Z) : Z :=
  match l with
  | [] => 0
  | x :: l' => add64 x (series_sum l')
  end.

(** The [float64] operations behind [Series.mean()] of an [int64] series:
    the cast of an integer, the division, and the sum of the series as a
    float.  The order in which the library adds the values of a long
    series is its own, so the sum is a member of the interface. *)
Class Float64 (F : Type) : Type := {
  float_of_int : Z -> F;
  float_div : F -> F -> F;
  float_sum : list Z -> F
}.

(** Binary64 values of IEEE 754, rounding to nearest even.  The sum adds
    the values from left to right, starting from zero, as the library does on
    a series of fewer than eight values. *)
#[export] Instance spec_Float64 : Float64 spec_float := {|
  float_of_int := fun z => binary_normalize 53 1024 z 0 false;
  float_div := SFdiv 53 1024;
  float_sum := fun l =>
    fold_left (fun acc x => SFadd 53 1024 acc (binary_normalize 53 1024 x 0 false))
              l (S754_zero false)
|}.

(** A Python number: a float, or an int. *)
Inductive pynum (F : Type) : Type :=
| PyFloat (f : F)
| PyInt (z : Z).

Arguments PyFloat {F} f.
Arguments PyInt {F} z.

(** [Series.mean()]: the float sum of the series over its length; on an
    empty series this is the division 0/0. *)
Definition series_mean {F : Type} `{Float64 F} (l : list Z) : F :=
  float_div (float_sum l) (float_of_int (Z.of_nat (List.length l))).

(** [Series.min()] and [Series.max()]; [None] is NaT, on an empty series. *)
Definition series_min (l : list Z) : option Z :=
  match l with
  | [] => None
  | x :: l' => Some (fold_left Z.min l' x)
  end.

Definition series_max (l : list Z) : option Z :=
  match l with
  | [] => None
  | x :: l' => Some (fold_left Z.max l' x)
  end.

(** [Series.isin(values)]. *)
Definition isin (values : list string) (x : string) : bool :=
  existsb (String.eqb x) values.

(** [Series.unique()]: the distinct values in order of first appearance. *)
Fixpoint unique_from {K : Type} `{GroupKey K} (seen l : list K) : list K :=
  match l with
  | [] => []
  | x :: l' =>
      if existsb (key_eqb x) seen then unique_from seen l'
      else x :: unique_from (x :: seen) l'
  end.

Definition unique {K : Type} `{GroupKey K} (l : list K) : list K :=
  unique_from [] l.

(** [Series.nunique()]. *)
Definition nunique {K : Type} `{GroupKey K} (l : list K) : Z :=
  Z.of_nat (List.length (unique l)).

(** [Series.cumsum()] of an [int64] series. *)
Fixpoint cumsum_from (acc : Z) (l : list Z) : list Z :=
  match l with
  | [] => []
  | x :: l' => add64 acc x :: cumsum_from (add64 acc x) l'
  end.

Definition cumsum (l : list Z) : list Z := cumsum_from 0 l.

(** [Series.head(n)]: the first [n] entries, or for a negative [n] all but
    the last [-n]. *)
Definition head {A : Type} (n : Z) (l : list A) : list A :=
  if 0 <=? n then firstn (Z.to_nat n) l
  else firstn (List.length l - Z.to_nat (- n))%nat l.

(** The group keys of a [groupby] come out in ascending key order. *)
Fixpoint insert_key {K : Type} `{GroupKey K} (k : K) (l : list K) : list K :=
  match l with
  | [] => [k]
  | k' :: l' => if key_leb k k' then k :: l else k' :: insert_key k l'
  end.

Fixpoint sort_keys {K : Type} `{GroupKey K} (l : list K) : list K :=
  match l with
  | [] => []
  | k :: l' => insert_key k (sort_keys l')
  end.

(** [Series.sort_values(ascending=False)] on a series of numbers indexed by
    [K].  pandas leaves the order of equal values to the sorting kind; here
    equal values keep their order.  The results below use only that the
    outcome is a rearrangement in descending order of value. *)
Fixpoint insert_desc {K : Type} (e : K * Z) (l : list (K * Z)) : list (K * Z) :=
  match l with
  | [] => [e]
  | e' :: l' => if snd e <? snd e' then e' :: insert_desc e l' else e :: l
  end.

Fixpoint sort_values_desc {K : Type} (l : list (K * Z)) : list (K * Z) :=
  match l with
  | [] => []
  | e :: l' => insert_desc e (sort_values_desc l')
  end.

(** The sum of [total] over the rows of [df] whose key is [k]. *)
Definition group_total {K : Type} `{GroupKey K} (key : sale -> K) (df : list sale)
    (k : K) : Z :=
  series_sum (map total (filter (fun r => key_eqb (key r) k) df)).

(** The same sum in [Z], without wrap-around. *)
Definition group_exact {K : Type} `{GroupKey K} (key : sale -> K) (df : list sale)
    (k : K) : Z :=
  list_sum (map total (filter (fun r => key_eqb (key r) k) df)).

(** [df.groupby(key)['total'].sum()]: one entry per distinct key, in
    ascending key order, holding the sum of [total] over the rows of that
    key. *)
Definition groupby_sum {K : Type} `{GroupKey K} (key : sale -> K) (df : list sale)
  : list (K * Z) :=
  map (fun k => (k, group_total key df k)) (sort_keys (unique (map key df))).

(** Descending order of value, the order of [sort_values(ascending=False)]. *)
Definition value_ge {K : Type} (a b : K * Z) : Prop := snd b <= snd a.

(** [Series.value_counts()]: the distinct values with their number of
    occurrences, most frequent first. *)
Definition count_of {K : Type} `{GroupKey K} (k : K) (l : list K) : Z :=
  Z.of_nat (List.length (filter (key_eqb k) l)).

Definition value_counts {K : Type} `{GroupKey K} (l : list K) : list (K * Z) :=
  sort_values_desc (map (fun k => (k, count_of k l)) (unique l)).

(** [pd.cut(x, bins, labels)] with the default [right=True]: the label of
    the interval (bins[i], bins[i+1]] that holds [x]; a missing value when
    no interval does. *)
Fixpoint cut (bins : list Z) (labels : list string) (x : Z) : option string :=
  match bins, labels with
  | lo :: ((hi :: _) as bins'), lab :: labels' =>
      if (lo <? x) && (x <=? hi) then Some lab else cut bins' labels' x
  | _, _ => None
  end.

(** [value_counts().sort_index()] on a categorical column: every category
    is listed, in category order, with the number of cells that carry it;
    missing cells are counted nowhere. *)
Definition label_count (lab : string) (col : list (option string)) : Z :=
  Z.of_nat (List.length (filter (fun c => match c with
                                     | Some l => String.eqb l lab
                                     | None => false
                                     end) col)).

Definition categorical_counts (labels : list string) (col : list (option string))
  : list (string * Z) :=
  map (fun lab => (lab, label_count lab col)) labels.

(** ** Lines 51-78: the sidebar defaults and the filter *)

(** Line 53: the default value of the date widget. *)
Definition default_date_range (sales_df : list sale) : option (list Z) :=
  match series_min (map date sales_df), series_max (map date sales_df) with
  | Some lo, Some hi => Some [dt_date lo; dt_date hi]
  | _, _ => None
  end.

(** Lines 62 and 69: the default selections of the two multiselects. *)
Definition default_regions (sales_df : list sale) : list string :=
  unique (map region sales_df).

Definition default_categories (sales_df : list sale) : list string :=
  unique (map category sales_df).

(** Lines 73-78.  [date_range] is the tuple the date widget returned. *)
Definition filtered_sales (sales_df : list sale) (date_range : list Z)
    (regions categories : list string) : outcome (list sale) :=
  (d0 <- tuple_get date_range 0 ;;
   d1 <- tuple_get date_range 1 ;;
   Returns (filter (fun r =>
              (dt_date (date r) >=? d0) &&
              (dt_date (date r) <=? d1) &&
              isin regions (region r) &&
              isin categories (category r)) sales_df))%outcome.

(** ** Lines 84-96: the KPI scalars *)

Definition total_sales (df : list sale) : Z := series_sum (map total df).

Definition transaction_count (df : list sale) : Z := Z.of_nat (List.length df).

Definition avg_transaction {F : Type} `{Float64 F} (df : list sale) : pynum F :=
  if transaction_count df >? 0 then PyFloat (series_mean (map total df))
  else PyInt 0.

Definition unique_customers (df : list sale) : Z := nunique (map customer_id df).

(** ** Lines 110-151: sales per group, largest first *)

Definition group_sales (key : sale -> string) (df : list sale) : list (string * Z) :=
  sort_values_desc (groupby_sum key df).

Definition region_sales : list sale -> list (string * Z) := group_sales region.
Definition category_sales : list sale -> list (string * Z) := group_sales category.
Definition payment_method : list sale -> list (string * Z) := group_sales payment.
Definition grade_sales : list sale -> list (string * Z) := group_sales grade.

(** ** Lines 231 and 244: the rankings *)

(** [df.groupby(key)['total'].sum().sort_values(ascending=False).head(n)];
    the script has it twice, with n = 10. *)
Definition top_n (key : sale -> string) (n : Z) (df : list sale) : list (string * Z) :=
  head n (group_sales key df).

Definition top_products : list sale -> list (string * Z) := top_n product_name 10.
Definition top_customers : list sale -> list (string * Z) := top_n name 10.

(** ** Lines 258 and 272: the daily series *)

(** The frame after [reset_index()]: columns [date] and [total]. *)
Definition daily_sales (df : list sale) : list (Timestamp * Z) :=
  groupby_sum date df.

(** The column ['cumulative'] that line 272 adds to that frame. *)
Definition daily_cumulative (df : list sale) : list Z :=
  cumsum (map snd (daily_sales df)).

(** ** Lines 170-213: the customer distributions *)

Definition age_bins : list Z := [0; 20; 30; 40; 50; 60; 100].

Definition age_labels : list string :=
  ["10대"; "20대"; "30대"; "40대"; "50대"; "60대+"].

(** The cell that line 170 computes for one age. *)
Definition age_group_of (a : Z) : option string := cut age_bins age_labels a.

(** The loaded frames, which the script holds in two module-level names. *)
Record store : Type := {
  customer_df : Customer.frame;
  sales_df : list sale
}.

Definition M (A : Type) : Type := store -> outcome (A * store).

Definition ret {A : Type} (a : A) : M A := fun st => Returns (a, st).

Definition bind {A B : Type} (m : M A) (k : A -> M B) : M B :=
  fun st => match m st with
            | Returns (a, st') => k a st'
            | Raises e => Raises e
            end.

Definition get : M store := fun st => Returns (st, st).

Definition put (st : store) : M unit := fun _ => Returns (tt, st).

Definition lift {A : Type} (o : outcome A) : M A :=
  fun st => match o with
            | Returns a => Returns (a, st)
            | Raises e => Raises e
            end.

Declare Scope M_scope.
Delimit Scope M_scope with M.
Notation "x <- m ;; k" := (bind m (fun x => k))
  (at level 61, m at next level, right associativity) : M_scope.
Notation "m ;;; k" := (bind m (fun _ => k))
  (at level 61, right associativity) : M_scope.

(** [customer_df['age_group'] = col]: the column is added to the frame, or
    replaced when the frame has it already. *)
Definition set_age_group (col : list (option string)) : M unit :=
  (st <- get ;;
   put {| customer_df := {| Customer.rows := Customer.rows (customer_df st);
                            Customer.age_group := Some col |};
          sales_df := sales_df st |})%M.

(** [customer_df['age_group']]. *)
Definition get_age_group : M (list (option string)) :=
  (st <- get ;;
   lift (match Customer.age_group (customer_df st) with
         | Some col => Returns col
         | None => Raises KeyError
         end))%M.

(** Lines 170-172. *)
Definition age_dist : M (list (string * Z)) :=
  (st <- get ;;
   set_age_group (map (fun c => age_group_of (Customer.age c))
                      (Customer.rows (customer_df st))) ;;;
   col <- get_age_group ;;
   ret (categorical_counts age_labels col))%M.

(** Lines 186, 199 and 213. *)
Definition gender_dist : M (list (string * Z)) :=
  (st <- get ;;
   ret (value_counts (map Customer.gender (Customer.rows (customer_df st)))))%M.

Definition region_customers : M (list (string * Z)) :=
  (st <- get ;;
   ret (sort_values_desc
          (value_counts (map Customer.region (Customer.rows (customer_df st))))))%M.

Definition segment_dist : M (list (string * Z)) :=
  (st <- get ;;
   ret (value_counts (map Customer.segment (Customer.rows (customer_df st)))))%M.

(** Lines 73-78 as a statement of the script: it reads [sales_df]. *)
Definition run_filter (date_range : list Z) (regions categories : list string)
  : M (list sale) :=
  (st <- get ;;
   lift (filtered_sales (sales_df st) date_range regions categories))%M.

(** The computations of the script, each with the values it is given.  The
    ones over the filtered table take that table, which is a frame of its
    own, apart from [sales_df]. *)
Inductive operation : Type :=
| OpFilter (date_range : list Z) (regions categories : list string)
| OpKpis (filtered : list sale)
| OpGroupSum (key : sale -> string) (filtered : list sale)
| OpTopN (key : sale -> string) (filtered : list sale)
| OpDailySeries (filtered : list sale)
| OpAgeDist
| OpGenderDist
| OpRegionCustomers
| OpSegmentDist.

Inductive view : Type :=
| VTable (df : list sale)
| VKpis (total : Z) (count : Z) (avg : pynum spec_float) (customers : Z)
| VGroups (s : list (string * Z))
| VDaily (s : list (Timestamp * Z)) (cumulative : list Z).

Definition exec (op : operation) : M view :=
  match op with
  | OpFilter dr rs cs => (df <- run_filter dr rs cs ;; ret (VTable df))%M
  | OpKpis df =>
      ret (VKpis (total_sales df) (transaction_count df)
                 (avg_transaction df) (unique_customers df))
  | OpGroupSum key df => ret (VGroups (group_sales key df))
  | OpTopN key df => ret (VGroups (top_n key 10 df))
  | OpDailySeries df => ret (VDaily (daily_sales df) (daily_cumulative df))
  | OpAgeDist => (s <- age_dist ;; ret (VGroups s))%M
  | OpGenderDist => (s <- gender_dist ;; ret (VGroups s))%M
  | OpRegionCustomers => (s <- region_customers ;; ret (VGroups s))%M
  | OpSegmentDist => (s <- segment_dist ;; ret (VGroups s))%M
  end.

(** ** Sample data *)

Definition day (d : Z) : Timestamp := d * ns_per_day.

Definition sale_north : sale :=
  {| date := day 19723; customer_id := "C001"; name := "Kim";
     product_name := "Laptop"; category := "A"; price := 100; quantity := 1;
     total := 100; payment := "card"; region := "North"; grade := "Gold" |}.

Definition sale_south : sale :=
  {| date := day 19724; customer_id := "C002"; name := "Lee";
     product_name := "Phone"; category := "B"; price := 100; quantity := 2;
     total := 200; payment := "cash"; region := "South"; grade := "Silver" |}.

Definition sample_sales : list sale := [sale_north; sale_south].

(** Two rows whose totals add up to 2^63. *)
Definition sale_large : sale :=
  {| date := day 19723; customer_id := "C001"; name := "Kim";
     product_name := "Laptop"; category := "A"; price := int64_max;
     quantity := 1; total := int64_max; payment := "card"; region := "North";
     grade := "Gold" |}.

Definition sale_one : sale :=
  {| date := day 19724; customer_id := "C002"; name := "Lee";
     product_name := "Phone"; category := "B"; price := 1; quantity := 1;
     total := 1; payment := "cash"; region := "South"; grade := "Silver" |}.

Definition overflow_sales : list sale := [sale_large; sale_one].

Definition customer_of_age (a : Z) : Customer.row :=
  {| Customer.customer_id := "C001"; Customer.name := "Kim"; Customer.age := a;
     Customer.gender := "F"; Customer.region := "North";
     Customer.segment := "VIP"; Customer.join_date := day 19000;
     Customer.last_purchase_date := day 19723 |}.

Definition sample_store (ages : list Z) : store :=
  {| customer_df := {| Customer.rows := map customer_of_age ages;
                       Customer.age_group := None |};
     sales_df := sample_sales |}.

(** * Properties *)

(** ** Membership tests, [unique] and [filter] *)

Lemma key_eqb_true_iff {K : Type} `{GroupKey K} (a b : K) :
  key_eqb a b = true <-> a = b.
Proof.
  destruct (key_eqb_spec a b) as [E | N]; split; intro X; try assumption;
    try reflexivity; try discriminate; contradiction.
Qed.

Lemma key_eqb_refl {K : Type} `{GroupKey K} (a : K) : key_eqb a a = true.
Proof. apply key_eqb_true_iff; reflexivity. Qed.

Lemma existsb_key_In {K : Type} `{GroupKey K} (x : K) (l : list K) :
  existsb (key_eqb x) l = true <-> In x l.
Proof.
  rewrite existsb_exists. split.
  - intros [y [Hy E]]. apply key_eqb_true_iff in E. subst y. exact Hy.
  - intro Hx. exists x. split; [exact Hx | apply key_eqb_refl].
Qed.

Lemma isin_In (values : list string) (x : string) :
  isin values x = true <-> In x values.
Proof. exact (existsb_key_In x values). Qed.

Lemma unique_from_In {K : Type} `{GroupKey K} (l seen : list K) (x : K) :
  In x (unique_from seen l) <-> In x l /\ ~ In x seen.
Proof.
  revert seen. induction l as [| y l IH]; intro seen; simpl.
  - tauto.
  - destruct (existsb (key_eqb y) seen) eqn:E.
    + apply existsb_key_In in E. rewrite IH. split.
      * intros [Hl Hs]. auto.
      * intros [[Hy | Hl] Hs]; [subst y; contradiction | auto].
    + assert (Hy : ~ In y seen).
      { intro Hin. apply existsb_key_In in Hin. congruence. }
      simpl. rewrite IH. simpl. split.
      * intros [E1 | [Hl Hs]]; [subst y; auto | tauto].
      * intros [[E1 | Hl] Hs]; [auto |].
        destruct (key_eqb_spec y x) as [E2 | N2]; [auto | right; tauto].
Qed.

Lemma unique_In {K : Type} `{GroupKey K} (l : list K) (x : K) :
  In x (unique l) <-> In x l.
Proof. unfold unique. rewrite unique_from_In. simpl. tauto. Qed.

Lemma unique_from_NoDup {K : Type} `{GroupKey K} (l seen : list K) :
  NoDup (unique_from seen l).
Proof.
  revert seen. induction l as [| y l IH]; intro seen; simpl.
  - constructor.
  - destruct (existsb (key_eqb y) seen); [apply IH |].
    constructor; [| apply IH].
    rewrite unique_from_In. simpl. tauto.
Qed.

Lemma unique_NoDup {K : Type} `{GroupKey K} (l : list K) : NoDup (unique l).
Proof. apply unique_from_NoDup. Qed.

Lemma filter_all {A : Type} (f : A -> bool) (l : list A) :
  (forall x, In x l -> f x = true) -> filter f l = l.
Proof.
  induction l as [| a l IH]; intro Hall; simpl; [reflexivity |].
  rewrite (Hall a (or_introl eq_refl)). f_equal. apply IH.
  intros x Hx. apply Hall. right. exact Hx.
Qed.

Lemma filter_none {A : Type} (f : A -> bool) (l : list A) :
  (forall x, In x l -> f x = false) -> filter f l = [].
Proof.
  induction l as [| a l IH]; intro Hnone; simpl; [reflexivity |].
  rewrite (Hnone a (or_introl eq_refl)). apply IH.
  intros x Hx. apply Hnone. right. exact Hx.
Qed.

(** ** The filter *)

(** The row test of lines 74-77, for a two-element [date_range]. *)
Lemma keep_row_iff (d0 d1 : Z) (regions categories : list string) (r : sale) :
  (dt_date (date r) >=? d0) && (dt_date (date r) <=? d1) &&
  isin regions (region r) && isin categories (category r) = true
  <-> d0 <= dt_date (date r) <= d1 /\ In (region r) regions /\
      In (category r) categories.
Proof.
  rewrite !andb_true_iff, Z.geb_le, Z.leb_le, !isin_In. tauto.
Qed.

Lemma filtered_sales_range (T : list sale) (d0 d1 : Z) (rs cs : list string) :
  filtered_sales T [d0; d1] rs cs =
  Returns (filter (fun r =>
             (dt_date (date r) >=? d0) && (dt_date (date r) <=? d1) &&
             isin rs (region r) && isin cs (category r)) T).
Proof. reflexivity. Qed.

(** C1: with the range (date_start, date_end), the filter returns a table
    whose records are exactly the records of the transaction table with
    date_start <= date <= date_end, region among the selected regions and
    category among the selected categories; with no region or no category
    selected the result is empty. *)
Theorem filtered_sales_inclusion :
  forall (T : list sale) (date_start date_end : Z) (regions categories : list string),
  exists X : list sale,
    filtered_sales T [date_start; date_end] regions categories = Returns X /\
    (forall r : sale,
       In r X <->
       In r T /\ date_start <= dt_date (date r) <= date_end /\
       In (region r) regions /\ In (category r) categories) /\
    (regions = [] \/ categories = [] -> X = []).
Proof.
  intros T ds de rs cs. eexists. split; [apply filtered_sales_range |]. split.
  - intro r. rewrite filter_In, keep_row_iff. tauto.
  - intros Hempty. apply filter_none. intros r _.
    destruct (_ && _) eqn:E; [| reflexivity].
    apply keep_row_iff in E. destruct E as [_ [Hr Hc]].
    destruct Hempty as [-> | ->]; contradiction.
Qed.

(** C6 (as the code has it): a range with date_start > date_end raises
    nothing; the filter returns the empty table. *)
Theorem filtered_sales_inverted_range :
  forall (T : list sale) (date_start date_end : Z) (regions categories : list string),
    date_start > date_end ->
    filtered_sales T [date_start; date_end] regions categories = Returns [].
Proof.
  intros T ds de rs cs Hgt. rewrite filtered_sales_range. f_equal.
  apply filter_none. intros r _.
  destruct (_ && _) eqn:E; [| reflexivity].
  apply keep_row_iff in E. lia.
Qed.

Lemma filtered_sales_inverted_range_witness :
  19724 > 19723 /\
  filtered_sales sample_sales [19724; 19723] ["North"; "South"] ["A"; "B"] = Returns [].
Proof.
  split; [lia |].
  apply (filtered_sales_inverted_range sample_sales 19724 19723); lia.
Defined.

(** C6 fails as stated: an inverted range is answered with a table, not
    with an error. *)
Lemma inverted_range_not_raised :
  ~ (forall (T : list sale) (date_start date_end : Z) (regions categories : list string),
       date_start > date_end ->
       exists e : exn,
         filtered_sales T [date_start; date_end] regions categories = Raises e).
Proof.
  intro Hclaim.
  destruct (Hclaim sample_sales 19724 19723 ["North"] ["A"]) as [e He]; [lia |].
  discriminate He.
Qed.

(** ** The default selection *)

Lemma fold_left_min_le (l : list Z) (a : Z) :
  fold_left Z.min l a <= a /\ forall x, In x l -> fold_left Z.min l a <= x.
Proof.
  revert a. induction l as [| y l IH]; intro a; simpl.
  - split; [lia | tauto].
  - destruct (IH (Z.min a y)) as [Hacc Hall]. split; [lia |].
    intros x [-> | Hx]; [lia | auto].
Qed.

Lemma fold_left_max_ge (l : list Z) (a : Z) :
  a <= fold_left Z.max l a /\ forall x, In x l -> x <= fold_left Z.max l a.
Proof.
  revert a. induction l as [| y l IH]; intro a; simpl.
  - split; [lia | tauto].
  - destruct (IH (Z.max a y)) as [Hacc Hall]. split; [lia |].
    intros x [-> | Hx]; [lia | auto].
Qed.

Lemma series_min_le (l : list Z) (m x : Z) :
  series_min l = Some m -> In x l -> m <= x.
Proof.
  destruct l as [| a l]; simpl; [discriminate |].
  intros [= <-] Hx. destruct (fold_left_min_le l a) as [Ha Hl].
  destruct Hx as [<- | Hx]; [exact Ha | exact (Hl x Hx)].
Qed.

Lemma series_max_ge (l : list Z) (m x : Z) :
  series_max l = Some m -> In x l -> x <= m.
Proof.
  destruct l as [| a l]; simpl; [discriminate |].
  intros [= <-] Hx. destruct (fold_left_max_ge l a) as [Ha Hl].
  destruct Hx as [<- | Hx]; [exact Ha | exact (Hl x Hx)].
Qed.

Lemma dt_date_mono (a b : Timestamp) : a <= b -> dt_date a <= dt_date b.
Proof. intro Hab. apply Z.div_le_mono; [reflexivity | exact Hab]. Qed.

(** C10: with the default widget state (the range from the first to the
    last day of the table, every region of the table, every category of the
    table) the filter returns the table itself. *)
Theorem filtered_sales_default_selection :
  forall (T : list sale) (date_range : list Z),
    default_date_range T = Some date_range ->
    filtered_sales T date_range (default_regions T) (default_categories T)
    = Returns T.
Proof.
  intros T dr Hdr. unfold default_date_range in Hdr.
  destruct (series_min (map date T)) as [lo |] eqn:Hlo; [| discriminate].
  destruct (series_max (map date T)) as [hi |] eqn:Hhi; [| discriminate].
  injection Hdr as <-. rewrite filtered_sales_range. f_equal.
  apply filter_all. intros r Hr. apply keep_row_iff.
  assert (Hd : In (date r) (map date T)) by (apply in_map; exact Hr).
  repeat split.
  - apply dt_date_mono. apply (series_min_le _ _ _ Hlo Hd).
  - apply dt_date_mono. apply (series_max_ge _ _ _ Hhi Hd).
  - apply unique_In. apply in_map. exact Hr.
  - apply unique_In. apply in_map. exact Hr.
Qed.

Lemma filtered_sales_default_selection_witness :
  default_date_range sample_sales = Some [19723; 19724] /\
  filtered_sales sample_sales [19723; 19724] (default_regions sample_sales)
                 (default_categories sample_sales) = Returns sample_sales.
Proof.
  split; [reflexivity |].
  apply (filtered_sales_default_selection sample_sales [19723; 19724]).
  reflexivity.
Defined.

(** ** [int64] sums *)

Lemma wrap64_range (z : Z) : - int64_max - 1 <= wrap64 z <= int64_max.
Proof.
  unfold wrap64, int64_max.
  pose proof (Z.mod_pos_bound (z + 9223372036854775808) 18446744073709551616).
  lia.
Qed.

Lemma wrap64_small (z : Z) :
  - int64_max - 1 <= z <= int64_max -> wrap64 z = z.
Proof.
  unfold wrap64, int64_max. intro Hz. rewrite Z.mod_small by lia. lia.
Qed.

Lemma wrap64_add_r (a b : Z) : wrap64 (a + wrap64 b) = wrap64 (a + b).
Proof.
  unfold wrap64. f_equal.
  replace (a + ((b + 9223372036854775808) mod 18446744073709551616
                - 9223372036854775808) + 9223372036854775808)
    with (a + (b + 9223372036854775808) mod 18446744073709551616) by lia.
  rewrite Z.add_mod_idemp_r by lia. f_equal. lia.
Qed.

Lemma wrap64_add_l (a b : Z) : wrap64 (wrap64 a + b) = wrap64 (a + b).
Proof. rewrite Z.add_comm, wrap64_add_r. f_equal. lia. Qed.

(** The [int64] sum is the sum in [Z], wrapped once. *)
Lemma series_sum_wrap (l : list Z) : series_sum l = wrap64 (list_sum l).
Proof.
  induction l as [| x l IH]; [reflexivity |].
  cbn [series_sum list_sum]. unfold add64. rewrite IH. apply wrap64_add_r.
Qed.

Lemma series_sum_range (l : list Z) :
  - int64_max - 1 <= series_sum l <= int64_max.
Proof. rewrite series_sum_wrap. apply wrap64_range. Qed.

Lemma list_sum_perm (l l' : list Z) :
  Permutation l l' -> list_sum l = list_sum l'.
Proof.
  induction 1 as [| x l l' _ IH | x y l | l l' l'' _ IH1 _ IH2]; simpl; lia.
Qed.

Lemma series_sum_perm (l l' : list Z) :
  Permutation l l' -> series_sum l = series_sum l'.
Proof.
  intro Hperm. rewrite !series_sum_wrap, (list_sum_perm _ _ Hperm). reflexivity.
Qed.

Lemma list_sum_nonneg (l : list Z) :
  (forall x, In x l -> 0 <= x) -> 0 <= list_sum l.
Proof.
  induction l as [| a l IH]; intro Hpos; simpl; [lia |].
  assert (0 <= a) by (apply Hpos; left; reflexivity).
  assert (0 <= list_sum l) by (apply IH; intros x Hx; apply Hpos; right; exact Hx).
  lia.
Qed.

Lemma list_sum_app (l1 l2 : list Z) :
  list_sum (l1 ++ l2) = list_sum l1 + list_sum l2.
Proof. induction l1 as [| a l1 IH]; simpl; lia. Qed.

(** Without overflow the [int64] sum is the sum in [Z]. *)
Lemma series_sum_exact (l : list Z) :
  (forall x, In x l -> 0 <= x) -> list_sum l <= int64_max ->
  series_sum l = list_sum l.
Proof.
  intros Hpos Hmax. rewrite series_sum_wrap. apply wrap64_small.
  pose proof (list_sum_nonneg l Hpos). unfold int64_max in *. lia.
Qed.

Lemma wrap64_list_sum_map {A : Type} (f : A -> Z) (l : list A) :
  wrap64 (list_sum (map (fun a => wrap64 (f a)) l)) = wrap64 (list_sum (map f l)).
Proof.
  induction l as [| a l IH]; [reflexivity |].
  cbn [map list_sum]. rewrite wrap64_add_l, <- wrap64_add_r, IH, wrap64_add_r.
  reflexivity.
Qed.

(** ** Rearrangements *)

Lemma insert_key_perm {K : Type} `{GroupKey K} (k : K) (l : list K) :
  Permutation (insert_key k l) (k :: l).
Proof.
  induction l as [| k' l IH]; simpl; [apply Permutation_refl |].
  destruct (key_leb k k'); [apply Permutation_refl |].
  eapply perm_trans; [apply perm_skip; exact IH | apply perm_swap].
Qed.

Lemma sort_keys_perm {K : Type} `{GroupKey K} (l : list K) :
  Permutation (sort_keys l) l.
Proof.
  induction l as [| k l IH]; simpl; [constructor |].
  eapply perm_trans; [apply insert_key_perm | apply perm_skip; exact IH].
Qed.

Lemma insert_desc_perm {K : Type} (e : K * Z) (l : list (K * Z)) :
  Permutation (insert_desc e l) (e :: l).
Proof.
  induction l as [| e' l IH]; simpl; [apply Permutation_refl |].
  destruct (snd e <? snd e'); [| apply Permutation_refl].
  eapply perm_trans; [apply perm_skip; exact IH | apply perm_swap].
Qed.

Lemma sort_values_desc_perm {K : Type} (l : list (K * Z)) :
  Permutation (sort_values_desc l) l.
Proof.
  induction l as [| e l IH]; simpl; [constructor |].
  eapply perm_trans; [apply insert_desc_perm | apply perm_skip; exact IH].
Qed.

Lemma insert_desc_HdRel {K : Type} (a e : K * Z) (l : list (K * Z)) :
  value_ge a e -> HdRel value_ge a l -> HdRel value_ge a (insert_desc e l).
Proof.
  intros Hae Hal. destruct l as [| b l]; simpl; [constructor; exact Hae |].
  destruct (snd e <? snd b); constructor;
    [apply HdRel_inv in Hal; exact Hal | exact Hae].
Qed.

Lemma insert_desc_sorted {K : Type} (e : K * Z) (l : list (K * Z)) :
  Sorted value_ge l -> Sorted value_ge (insert_desc e l).
Proof.
  induction l as [| a l IH]; intro Hs; simpl.
  - repeat constructor.
  - apply Sorted_inv in Hs. destruct Hs as [Hs Hhd].
    destruct (snd e <? snd a) eqn:E.
    + apply Z.ltb_lt in E. constructor; [apply IH; exact Hs |].
      apply insert_desc_HdRel; [unfold value_ge; lia | exact Hhd].
    + apply Z.ltb_ge in E. constructor; [constructor; assumption |].
      constructor. exact E.
Qed.

Lemma sort_values_desc_sorted {K : Type} (l : list (K * Z)) :
  StronglySorted value_ge (sort_values_desc l).
Proof.
  apply Sorted_StronglySorted.
  - intros a b c Hab Hbc. unfold value_ge in *. lia.
  - induction l as [| e l IH]; simpl; [constructor |].
    apply insert_desc_sorted. exact IH.
Qed.

Lemma StronglySorted_app_inv {A : Type} (R : A -> A -> Prop) (l1 l2 : list A) :
  StronglySorted R (l1 ++ l2)%list ->
  forall a b, In a l1 -> In b l2 -> R a b.
Proof.
  induction l1 as [| x l1 IH]; simpl; intros Hs a b Ha Hb; [contradiction |].
  apply StronglySorted_inv in Hs. destruct Hs as [Hs Hall].
  destruct Ha as [<- | Ha]; [| exact (IH Hs a b Ha Hb)].
  rewrite Forall_forall in Hall. apply Hall. apply in_or_app. right. exact Hb.
Qed.

(** ** Group sums *)

Section GroupSums.

Context {K : Type} `{GroupKey K}.
Variable key : sale -> K.

Lemma sum_indicator (x : K) (v : Z) (ks : list K) :
  NoDup ks ->
  list_sum (map (fun k => if key_eqb x k then v else 0) ks) =
  if existsb (key_eqb x) ks then v else 0.
Proof.
  induction 1 as [| k ks Hk Hnd IH]; simpl; [reflexivity |].
  rewrite IH. destruct (key_eqb_spec x k) as [-> | N]; simpl; [| reflexivity].
  destruct (existsb (key_eqb k) ks) eqn:E; [| lia].
  apply existsb_key_In in E. contradiction.
Qed.

Lemma group_exact_cons (r : sale) (df : list sale) (k : K) :
  group_exact key (r :: df) k =
  (if key_eqb (key r) k then total r else 0) + group_exact key df k.
Proof.
  unfold group_exact. simpl. destruct (key_eqb (key r) k); reflexivity.
Qed.

Lemma list_sum_map_add (f g : K -> Z) (ks : list K) :
  list_sum (map (fun k => f k + g k) ks) =
  list_sum (map f ks) + list_sum (map g ks).
Proof. induction ks as [| k ks IH]; simpl; lia. Qed.

(** Summing every group once gives the sum of the whole column: in [Z],
    and so for the [int64] sums as well. *)
Lemma group_exact_partition (ks : list K) (df : list sale) :
  NoDup ks ->
  (forall r, In r df -> In (key r) ks) ->
  list_sum (map (group_exact key df) ks) = list_sum (map total df).
Proof.
  intros Hnd. induction df as [| r df IH]; intro Hcover.
  - clear Hnd Hcover. induction ks as [| k ks IHk]; simpl; [reflexivity |].
    rewrite IHk. reflexivity.
  - rewrite (map_ext _ _ (group_exact_cons r df)).
    rewrite list_sum_map_add, (sum_indicator _ _ _ Hnd).
    assert (E : existsb (key_eqb (key r)) ks = true).
    { apply existsb_key_In. apply Hcover. left. reflexivity. }
    rewrite E, IH; [reflexivity |].
    intros r' Hr'. apply Hcover. right. exact Hr'.
Qed.

Lemma group_total_wrap (df : list sale) (k : K) :
  group_total key df k = wrap64 (group_exact key df k).
Proof. apply series_sum_wrap. Qed.

Lemma group_totals_partition (ks : list K) (df : list sale) :
  NoDup ks ->
  (forall r, In r df -> In (key r) ks) ->
  series_sum (map (group_total key df) ks) = series_sum (map total df).
Proof.
  intros Hnd Hcover. rewrite !series_sum_wrap.
  rewrite (map_ext _ _ (group_total_wrap df)), wrap64_list_sum_map.
  rewrite (group_exact_partition ks df Hnd Hcover). reflexivity.
Qed.

Lemma groupby_sum_values (df : list sale) :
  series_sum (map snd (groupby_sum key df)) = series_sum (map total df).
Proof.
  unfold groupby_sum. rewrite map_map. simpl.
  rewrite (series_sum_perm _ (map (group_total key df) (unique (map key df)))).
  - apply group_totals_partition; [apply unique_NoDup |].
    intros r Hr. apply unique_In. apply in_map. exact Hr.
  - apply Permutation_map. apply sort_keys_perm.
Qed.

Lemma groupby_sum_length (df : list sale) :
  List.length (groupby_sum key df) = List.length (unique (map key df)).
Proof.
  unfold groupby_sum. rewrite length_map.
  apply Permutation_length. apply sort_keys_perm.
Qed.

Lemma groupby_sum_entry (df : list sale) (e : K * Z) :
  In e (groupby_sum key df) ->
  snd e = group_total key df (fst e).
Proof.
  unfold groupby_sum. rewrite in_map_iff. intros [k [<- _]]. reflexivity.
Qed.

End GroupSums.

Lemma group_sales_values (key : sale -> string) (df : list sale) :
  series_sum (map snd (group_sales key df)) = total_sales df.
Proof.
  unfold group_sales, total_sales. rewrite <- (groupby_sum_values key).
  apply series_sum_perm. apply Permutation_map. apply sort_values_desc_perm.
Qed.

(** C2: over a filtered table, the values of each per-group summary
    (region, category, payment method, grade, or any other column) add up
    to the total sales KPI of that table. *)
Theorem group_sums_add_up_to_total_sales :
  forall (T : list sale) (date_range : list Z) (regions categories : list string)
         (X : list sale),
    filtered_sales T date_range regions categories = Returns X ->
    series_sum (map snd (region_sales X)) = total_sales X /\
    series_sum (map snd (category_sales X)) = total_sales X /\
    series_sum (map snd (payment_method X)) = total_sales X /\
    series_sum (map snd (grade_sales X)) = total_sales X /\
    forall key : sale -> string,
      series_sum (map snd (group_sales key X)) = total_sales X.
Proof.
  intros T dr rs cs X _.
  repeat split; try intro key; apply group_sales_values.
Qed.

Lemma group_sums_add_up_to_total_sales_witness :
  filtered_sales sample_sales [19723; 19724] ["North"; "South"] ["A"; "B"]
  = Returns sample_sales /\
  series_sum (map snd (region_sales sample_sales)) = total_sales sample_sales.
Proof.
  split; [reflexivity |].
  apply (group_sums_add_up_to_total_sales sample_sales [19723; 19724]
           ["North"; "South"] ["A"; "B"] sample_sales).
  reflexivity.
Defined.

(** ** Rankings *)

Lemma head_pos {A : Type} (n : Z) (l : list A) :
  0 <= n -> head n l = firstn (Z.to_nat n) l.
Proof.
  intro Hn. unfold head. apply Z.leb_le in Hn. rewrite Hn. reflexivity.
Qed.

Lemma group_sales_length (key : sale -> string) (df : list sale) :
  Z.of_nat (List.length (group_sales key df)) = nunique (map key df).
Proof.
  unfold group_sales, nunique.
  rewrite (Permutation_length (sort_values_desc_perm _)), groupby_sum_length.
  reflexivity.
Qed.

(** C7: for a positive n, the ranking has at most n entries; it is the
    beginning of the per-group summary, which is in descending order of
    value, so that no entry left out has a value above a listed one; with at
    most n groups it is the whole summary.  The script's two rankings are
    the case n = 10. *)
Theorem top_n_ranking :
  forall (X : list sale) (key : sale -> string) (n : Z),
    0 < n ->
    Z.of_nat (List.length (top_n key n X)) <= n /\
    StronglySorted value_ge (group_sales key X) /\
    (exists excluded : list (string * Z),
       group_sales key X = (top_n key n X ++ excluded)%list /\
       forall e e', In e (top_n key n X) -> In e' excluded -> snd e' <= snd e) /\
    (nunique (map key X) <= n -> top_n key n X = group_sales key X) /\
    top_products X = top_n product_name 10 X /\
    top_customers X = top_n name 10 X.
Proof.
  intros X key n Hn. unfold top_n at 1 2 3 4. rewrite head_pos by lia.
  pose proof (sort_values_desc_sorted (groupby_sum key X)) as Hsorted.
  fold (group_sales key X) in Hsorted.
  repeat split.
  - pose proof (firstn_le_length (Z.to_nat n) (group_sales key X)). lia.
  - exact Hsorted.
  - exists (skipn (Z.to_nat n) (group_sales key X)).
    split; [symmetry; apply firstn_skipn |].
    intros e e' He He'.
    rewrite <- (firstn_skipn (Z.to_nat n) (group_sales key X)) in Hsorted.
    exact (StronglySorted_app_inv _ _ _ Hsorted e e' He He').
  - intro Hfew. apply firstn_all2.
    rewrite <- group_sales_length in Hfew. lia.
Qed.

Lemma top_n_ranking_witness :
  0 < 1 /\ top_n product_name 1 sample_sales = [("Phone", 200)] /\
  Z.of_nat (List.length (top_n product_name 1 sample_sales)) <= 1.
Proof.
  split; [lia |]. split; [reflexivity |].
  apply (top_n_ranking sample_sales product_name 1). lia.
Defined.

(** ** Running totals *)

Lemma cumsum_from_length (l : list Z) (acc : Z) :
  List.length (cumsum_from acc l) = List.length l.
Proof.
  revert acc. induction l as [| x l IH]; intro acc; simpl; [reflexivity |].
  rewrite IH. reflexivity.
Qed.

Lemma cumsum_from_head (l : list Z) (acc : Z) :
  l <> [] -> nth 0 (cumsum_from acc l) 0 = add64 acc (nth 0 l 0).
Proof. destruct l as [| x l]; [contradiction | reflexivity]. Qed.

Lemma cumsum_from_step (l : list Z) (acc : Z) (i : nat) :
  (S i < List.length l)%nat ->
  nth (S i) (cumsum_from acc l) 0 =
  add64 (nth i (cumsum_from acc l) 0) (nth (S i) l 0).
Proof.
  revert acc i. induction l as [| x l IH]; intros acc i Hi; simpl in Hi; [lia |].
  destruct i as [| i].
  - destruct l as [| y l]; simpl in *; [lia | reflexivity].
  - change (nth (S i) (cumsum_from (add64 acc x) l) 0 =
            add64 (nth i (cumsum_from (add64 acc x) l) 0) (nth (S i) l 0)).
    apply IH. lia.
Qed.

Lemma cumsum_from_nth (l : list Z) (acc : Z) (i : nat) :
  (i < List.length l)%nat ->
  nth i (cumsum_from acc l) 0 = wrap64 (acc + list_sum (firstn (S i) l)).
Proof.
  revert acc i. induction l as [| x l IH]; intros acc i Hi; simpl in Hi; [lia |].
  destruct i as [| i].
  - cbn [cumsum_from nth firstn list_sum]. unfold add64. f_equal.
    destruct l; simpl; lia.
  - change (nth i (cumsum_from (add64 acc x) l) 0 =
            wrap64 (acc + (x + list_sum (firstn (S i) l)))).
    rewrite IH by lia. unfold add64. rewrite wrap64_add_l. f_equal. lia.
Qed.

Lemma cumsum_from_last (l : list Z) (acc : Z) :
  l <> [] -> last (cumsum_from acc l) 0 = wrap64 (acc + list_sum l).
Proof.
  revert acc. induction l as [| x l IH]; intros acc Hne; [contradiction |].
  destruct l as [| y l].
  - simpl. unfold add64. f_equal. lia.
  - change (last (cumsum_from (add64 acc x) (y :: l)) 0 =
            wrap64 (acc + (x + list_sum (y :: l)))).
    rewrite IH by discriminate. unfold add64. rewrite wrap64_add_l. f_equal. lia.
Qed.

(** A running total that stays within [int64] is the running total in
    [Z]. *)
Lemma cumsum_from_exact (l : list Z) (acc : Z) (i : nat) :
  (forall x, In x l -> 0 <= x) ->
  0 <= acc -> acc + list_sum l <= int64_max ->
  (i < List.length l)%nat ->
  nth i (cumsum_from acc l) 0 = acc + list_sum (firstn (S i) l).
Proof.
  intros Hpos Hacc Hmax Hi. rewrite cumsum_from_nth by exact Hi.
  apply wrap64_small.
  assert (Hfirst : 0 <= list_sum (firstn (S i) l)).
  { apply list_sum_nonneg. intros x Hx. apply Hpos.
    rewrite <- (firstn_skipn (S i) l). apply in_or_app. left. exact Hx. }
  assert (Hrest : 0 <= list_sum (skipn (S i) l)).
  { apply list_sum_nonneg. intros x Hx. apply Hpos.
    rewrite <- (firstn_skipn (S i) l). apply in_or_app. right. exact Hx. }
  assert (Hsplit : list_sum l =
                   list_sum (firstn (S i) l) + list_sum (skipn (S i) l)).
  { rewrite <- list_sum_app, firstn_skipn. reflexivity. }
  unfold int64_max in *. lia.
Qed.

Lemma list_sum_firstn_S (l : list Z) (i : nat) :
  (i < List.length l)%nat ->
  list_sum (firstn (S i) l) = list_sum (firstn i l) + nth i l 0.
Proof.
  revert i. induction l as [| x l IH]; intros i Hi; simpl in Hi; [lia |].
  destruct i as [| i].
  - simpl. destruct l; simpl; lia.
  - change (x + list_sum (firstn (S i) l) = x + list_sum (firstn i l) + nth i l 0).
    rewrite IH by lia. lia.
Qed.

Lemma cumsum_from_exact_step (l : list Z) (acc : Z) (i : nat) :
  (forall x, In x l -> 0 <= x) ->
  0 <= acc -> acc + list_sum l <= int64_max ->
  (S i < List.length l)%nat ->
  nth (S i) (cumsum_from acc l) 0 = nth i (cumsum_from acc l) 0 + nth (S i) l 0.
Proof.
  intros Hpos Hacc Hmax Hi.
  rewrite !cumsum_from_exact by (assumption || lia).
  rewrite (list_sum_firstn_S l (S i)) by exact Hi. lia.
Qed.

Lemma cumsum_from_monotone (l : list Z) (acc : Z) :
  (forall x, In x l -> 0 <= x) ->
  0 <= acc -> acc + list_sum l <= int64_max ->
  forall i j : nat, (i <= j < List.length l)%nat ->
    nth i (cumsum_from acc l) 0 <= nth j (cumsum_from acc l) 0.
Proof.
  intros Hpos Hacc Hmax i j. induction j as [| j IH]; intros [Hij Hj].
  - replace i with 0%nat by lia. lia.
  - destruct (Nat.eq_dec i (S j)) as [-> | Hne]; [lia |].
    rewrite (cumsum_from_exact_step l acc j) by (assumption || lia).
    assert (0 <= nth (S j) l 0) by (apply Hpos; apply nth_In; exact Hj).
    assert (nth i (cumsum_from acc l) 0 <= nth j (cumsum_from acc l) 0)
      by (apply IH; lia).
    lia.
Qed.

Lemma daily_sales_nonempty (X : list sale) : X <> [] -> daily_sales X <> [].
Proof.
  intros Hne Hnil. destruct X as [| r X]; [contradiction |].
  assert (Hlen : List.length (daily_sales (r :: X)) = 0%nat) by (rewrite Hnil; reflexivity).
  unfold daily_sales in Hlen. rewrite groupby_sum_length in Hlen.
  assert (Hin : In (date r) (unique (map date (r :: X))))
    by (apply unique_In; left; reflexivity).
  destruct (unique (map date (r :: X))); [contradiction | discriminate].
Qed.

(** ** Groups of a column that adds up without overflow *)

Lemma list_sum_filter_le (f : sale -> bool) (l : list sale) :
  (forall r, In r l -> 0 <= total r) ->
  0 <= list_sum (map total (filter f l)) <= list_sum (map total l).
Proof.
  induction l as [| a l IH]; intro Hpos; simpl; [lia |].
  assert (0 <= total a) by (apply Hpos; left; reflexivity).
  assert (0 <= list_sum (map total (filter f l)) <= list_sum (map total l))
    by (apply IH; intros r Hr; apply Hpos; right; exact Hr).
  destruct (f a); simpl; lia.
Qed.

Lemma total_sales_exact (X : list sale) :
  (forall r, In r X -> 0 <= total r) ->
  list_sum (map total X) <= int64_max ->
  total_sales X = list_sum (map total X).
Proof.
  intros Hpos Hmax. unfold total_sales. apply series_sum_exact; [| exact Hmax].
  intros x Hx. apply in_map_iff in Hx. destruct Hx as [r [<- Hr]]. auto.
Qed.

Lemma group_total_exact {K : Type} `{GroupKey K} (key : sale -> K)
    (X : list sale) (k : K) :
  (forall r, In r X -> 0 <= total r) ->
  list_sum (map total X) <= int64_max ->
  group_total key X k = group_exact key X k /\ 0 <= group_exact key X k.
Proof.
  intros Hpos Hmax.
  pose proof (list_sum_filter_le (fun r => key_eqb (key r) k) X Hpos) as Hle.
  fold (group_exact key X k) in Hle.
  split; [| lia]. rewrite group_total_wrap. apply wrap64_small.
  unfold int64_max in *. lia.
Qed.

(** Without overflow the group values are the sums in [Z]: none is
    negative and together they add up, in [Z], to the sum of the column. *)
Lemma groupby_sum_exact {K : Type} `{GroupKey K} (key : sale -> K) (X : list sale) :
  (forall r, In r X -> 0 <= total r) ->
  list_sum (map total X) <= int64_max ->
  (forall x, In x (map snd (groupby_sum key X)) -> 0 <= x) /\
  list_sum (map snd (groupby_sum key X)) = list_sum (map total X).
Proof.
  intros Hpos Hmax. split.
  - intros x Hx. apply in_map_iff in Hx. destruct Hx as [e [<- He]].
    rewrite (groupby_sum_entry key X e He).
    destruct (group_total_exact key X (fst e) Hpos Hmax) as [-> Hge]. exact Hge.
  - unfold groupby_sum. rewrite map_map. cbn [snd].
    rewrite (map_ext _ (group_exact key X))
      by (intro k; apply (group_total_exact key X k Hpos Hmax)).
    rewrite (list_sum_perm _ (map (group_exact key X) (unique (map key X))))
      by (apply Permutation_map; apply sort_keys_perm).
    apply group_exact_partition; [apply unique_NoDup |].
    intros r Hr. apply unique_In. apply in_map. exact Hr.
Qed.

(** C3 (as the code has it): for a table with at least one row, the
    cumulative column of the daily series starts at the first period total,
    is at every later position the int64 sum of the entry before and the
    period total, and ends at the total sales KPI of the table; when no row
    has a negative total and the totals add up to at most 2^63 - 1, that
    sum is the sum of integers and the column is non-decreasing. *)
Theorem daily_cumulative_running_total :
  forall X : list sale,
    X <> [] ->
    let period := map snd (daily_sales X) in
    let cumulative := daily_cumulative X in
    cumulative <> [] /\
    List.length cumulative = List.length period /\
    nth 0 cumulative 0 = nth 0 period 0 /\
    (forall i : nat, (0 < i < List.length period)%nat ->
       nth i cumulative 0 = add64 (nth (i - 1) cumulative 0) (nth i period 0)) /\
    last cumulative 0 = total_sales X /\
    ((forall r, In r X -> 0 <= total r) ->
     list_sum (map total X) <= int64_max ->
     (forall i : nat, (0 < i < List.length period)%nat ->
        nth i cumulative 0 = nth (i - 1) cumulative 0 + nth i period 0) /\
     (forall i j : nat, (i <= j < List.length cumulative)%nat ->
        nth i cumulative 0 <= nth j cumulative 0)).
Proof.
  intros X Hne period cumulative.
  assert (Hp : period <> []).
  { subst period. intro E. apply map_eq_nil in E.
    exact (daily_sales_nonempty X Hne E). }
  assert (Hlen : List.length cumulative = List.length period)
    by apply cumsum_from_length.
  split; [| split; [exact Hlen | split; [| split; [| split]]]].
  - intro E. rewrite E in Hlen. destruct period; [contradiction | discriminate].
  - subst cumulative. unfold daily_cumulative, cumsum.
    rewrite cumsum_from_head by exact Hp. fold period. unfold add64.
    rewrite Z.add_0_l. apply wrap64_small.
    destruct (daily_sales X) as [| e ds] eqn:E; [contradiction Hp; reflexivity |].
    assert (He : In e (groupby_sum date X))
      by (unfold daily_sales in E; rewrite E; left; reflexivity).
    subst period. cbn [map nth]. rewrite (groupby_sum_entry date X e He).
    apply series_sum_range.
  - intros i Hi. destruct i as [| i]; [lia |].
    replace (S i - 1)%nat with i by lia.
    apply cumsum_from_step. lia.
  - subst cumulative. unfold daily_cumulative, cumsum.
    rewrite cumsum_from_last by exact Hp. rewrite Z.add_0_l, <- series_sum_wrap.
    subst period. unfold daily_sales. rewrite groupby_sum_values. reflexivity.
  - intros Hpos Hmax.
    destruct (groupby_sum_exact date X Hpos Hmax
              : (forall x, In x period -> 0 <= x) /\
                list_sum period = list_sum (map total X)) as [Hpp Hsum].
    assert (Hbound : 0 + list_sum period <= int64_max)
      by (rewrite Z.add_0_l, Hsum; exact Hmax).
    split.
    + intros i Hi. destruct i as [| i]; [lia |].
      replace (S i - 1)%nat with i by lia.
      apply cumsum_from_exact_step; (assumption || lia).
    + intros i j Hij. rewrite Hlen in Hij.
      apply cumsum_from_monotone; [exact Hpp | lia | exact Hbound | exact Hij].
Qed.

Lemma daily_cumulative_running_total_witness :
  sample_sales <> [] /\
  daily_cumulative sample_sales = [100; 300] /\
  last (daily_cumulative sample_sales) 0 = total_sales sample_sales.
Proof.
  split; [discriminate |]. split; [reflexivity |].
  apply (daily_cumulative_running_total sample_sales). discriminate.
Defined.

(** C3 fails as stated: on the totals 2^63 - 1 and 1, on two days, no total
    is negative and the cumulative column falls from 2^63 - 1 to -2^63. *)
Lemma daily_cumulative_wraps :
  ~ (forall X : list sale,
       X <> [] ->
       (forall r, In r X -> 0 <= total r) ->
       forall i j : nat, (i <= j < List.length (daily_cumulative X))%nat ->
         nth i (daily_cumulative X) 0 <= nth j (daily_cumulative X) 0).
Proof.
  intro Hclaim.
  assert (Hpos : forall r, In r overflow_sales -> 0 <= total r).
  { intros r [<- | [<- | []]]; simpl; unfold int64_max; lia. }
  assert (H : nth 0 (daily_cumulative overflow_sales) 0 <=
              nth 1 (daily_cumulative overflow_sales) 0).
  { apply Hclaim; [discriminate | exact Hpos |].
    change (0 <= 1 < 2)%nat. lia. }
  vm_compute in H. apply H. reflexivity.
Qed.

(** ** The average *)



(** ** Age groups *)

Lemma age_group_of_unfold (a : Z) :
  age_group_of a =
  if (0 <? a) && (a <=? 20) then Some "10대"
  else if (20 <? a) && (a <=? 30) then Some "20대"
  else if (30 <? a) && (a <=? 40) then Some "30대"
  else if (40 <? a) && (a <=? 50) then Some "40대"
  else if (50 <? a) && (a <=? 60) then Some "50대"
  else if (60 <? a) && (a <=? 100) then Some "60대+"
  else None.
Proof. reflexivity. Qed.

(** One step down the chain of bins: is the age in this interval? *)
Ltac next_bin :=
  match goal with
  | |- context [if (?lo <? ?x) && (?x <=? ?hi) then _ else _] =>
      destruct (Z.ltb_spec lo x); destruct (Z.leb_spec x hi); cbn [andb]; try lia
  end.

Ltac age_cases a := rewrite (age_group_of_unfold a); repeat next_bin.

Lemma age_group_of_domain (a : Z) :
  (age_group_of a = None /\ (0 <? a) && (a <=? 100) = false) \/
  (exists lab, In lab age_labels /\ age_group_of a = Some lab /\
               (0 <? a) && (a <=? 100) = true).
Proof.
  destruct (Z.ltb_spec 0 a); destruct (Z.leb_spec a 100); cbn [andb];
    age_cases a;
    first [ left; split; reflexivity
          | right; eexists; split; [| split; reflexivity]; simpl; tauto ].
Qed.

(** X22: an age in (0,100] gets exactly one label, the one of the bucket
    among (0,20], (20,30], (30,40], (40,50], (50,60] and (60,100] that
    holds it, the upper bound of a bucket belonging to it; 20 is in the
    first bucket and 21 in the second. *)
Theorem age_group_of_buckets :
  forall a : Z,
    0 < a <= 100 ->
    (exists lab : string, In lab age_labels /\ age_group_of a = Some lab) /\
    (age_group_of a = Some "10대" <-> 0 < a <= 20) /\
    (age_group_of a = Some "20대" <-> 20 < a <= 30) /\
    (age_group_of a = Some "30대" <-> 30 < a <= 40) /\
    (age_group_of a = Some "40대" <-> 40 < a <= 50) /\
    (age_group_of a = Some "50대" <-> 50 < a <= 60) /\
    (age_group_of a = Some "60대+" <-> 60 < a <= 100) /\
    age_group_of 20 = Some "10대" /\
    age_group_of 21 = Some "20대".
Proof.
  intros a Ha. split.
  - destruct (age_group_of_domain a) as [[_ E] | [lab [Hlab [E _]]]].
    + apply andb_false_iff in E. rewrite Z.ltb_ge, Z.leb_gt in E. lia.
    + exists lab. split; assumption.
  - clear Ha.
    repeat match goal with
           | |- _ /\ _ => split
           | |- _ <-> _ => split; intro
           end;
      try reflexivity;
      try (revert H; age_cases a; intro; (discriminate || lia));
      age_cases a; reflexivity.
Qed.

Lemma age_group_of_buckets_witness :
  0 < 61 <= 100 /\ age_group_of 61 = Some "60대+".
Proof.
  split; [lia |].
  destruct (age_group_of_buckets 61 ltac:(lia)) as [_ [_ [_ [_ [_ [_ [H _]]]]]]].
  apply H. lia.
Defined.

(** Not every age above 60 gets the last label: 101 gets none. *)
Lemma age_above_100_unlabelled :
  ~ (forall a : Z, 60 < a -> age_group_of a = Some "60대+").
Proof.
  intro Hclaim. specialize (Hclaim 101 ltac:(lia)). discriminate Hclaim.
Qed.

Lemma label_count_cons (lab : string) (c : option string) (col : list (option string)) :
  label_count lab (c :: col) =
  (match c with
   | Some l => if String.eqb l lab then 1 else 0
   | None => 0
   end) + label_count lab col.
Proof.
  unfold label_count. simpl.
  destruct c as [l |]; [destruct (String.eqb l lab) |]; simpl List.length; lia.
Qed.

Lemma categorical_counts_cons (labels : list string) (c : option string)
    (col : list (option string)) :
  list_sum (map snd (categorical_counts labels (c :: col))) =
  list_sum (map (fun lab => match c with
                              | Some l => if String.eqb l lab then 1 else 0
                              | None => 0
                              end) labels) +
  list_sum (map snd (categorical_counts labels col)).
Proof.
  unfold categorical_counts. rewrite !map_map. simpl.
  induction labels as [| lab labels IH]; simpl; [reflexivity |].
  rewrite label_count_cons, IH. lia.
Qed.

(** Every cell that carries a label is counted once; a missing cell is not
    counted. *)
Lemma age_counts_total (rows : list Customer.row) :
  list_sum (map snd (categorical_counts age_labels
                         (map (fun c => age_group_of (Customer.age c)) rows))) =
  Z.of_nat (List.length (filter (fun c => (0 <? Customer.age c) &&
                                          (Customer.age c <=? 100)) rows)).
Proof.
  induction rows as [| c rows IH]; [reflexivity |].
  change (map (fun c => age_group_of (Customer.age c)) (c :: rows))
    with (age_group_of (Customer.age c)
          :: map (fun c => age_group_of (Customer.age c)) rows).
  rewrite categorical_counts_cons, IH. cbn [filter].
  destruct (age_group_of_domain (Customer.age c)) as [[-> ->] | [lab [Hlab [-> ->]]]].
  - reflexivity.
  - cbn [List.length]. rewrite Nat2Z.inj_succ.
    assert (E : list_sum (map (fun lab0 => if String.eqb lab lab0 then 1 else 0)
                                age_labels) = 1).
    { simpl in Hlab.
      repeat (destruct Hlab as [<- | Hlab]; [reflexivity |]). contradiction. }
    rewrite E. lia.
Qed.

(** ** The state monad *)

Lemma age_dist_run (st : store) :
  age_dist st =
  let col := map (fun c => age_group_of (Customer.age c))
                 (Customer.rows (customer_df st)) in
  Returns (categorical_counts age_labels col,
           {| customer_df := {| Customer.rows := Customer.rows (customer_df st);
                                Customer.age_group := Some col |};
              sales_df := sales_df st |}).
Proof. reflexivity. Qed.

(** C4: the claim puts every age above 60 in the last bucket, and the last
    label of the code says 60 and over; the code gives the age 101, which is
    above 60, no label, so that a customer of that age is counted in no
    bucket of the age-group distribution. *)
Theorem age_101_unlabelled :
  60 < 101 /\
  age_group_of 101 = None /\
  last age_labels "" = "60대+" /\
  exists st' : store,
    age_dist (sample_store [101]) =
    Returns ([("10대", 0); ("20대", 0); ("30대", 0); ("40대", 0); ("50대", 0);
              ("60대+", 0)], st').
Proof.
  split; [lia |]. split; [reflexivity |]. split; [reflexivity |].
  eexists. reflexivity.
Qed.

Lemma label_count_missing (lab : string) (rows : list Customer.row)
    (f : Customer.row -> option string) (g : Customer.row -> bool) :
  (forall c, g c = false -> f c = None) ->
  label_count lab (map f rows) = label_count lab (map f (filter g rows)).
Proof.
  intro Hf. induction rows as [| c rows IH]; [reflexivity |].
  cbn [map filter]. destruct (g c) eqn:E.
  - cbn [map]. rewrite !label_count_cons, IH. reflexivity.
  - rewrite label_count_cons, (Hf c E), IH. reflexivity.
Qed.

(** C5 (as the code has it): the age-group distribution raises nothing,
    whatever the ages; it lists the six labels in order; a customer of age
    0 or less gets a missing cell and is counted in no bucket: the counts
    are those of the table without such customers. *)
Theorem age_dist_skips_unlabelled :
  forall st : store,
  exists (dist : list (string * Z)) (st' : store),
    age_dist st = Returns (dist, st') /\
    map fst dist = age_labels /\
    (forall c, In c (Customer.rows (customer_df st)) ->
               Customer.age c <= 0 -> age_group_of (Customer.age c) = None) /\
    dist = categorical_counts age_labels
             (map (fun c => age_group_of (Customer.age c))
                  (filter (fun c => 0 <? Customer.age c)
                          (Customer.rows (customer_df st)))).
Proof.
  intro st. rewrite age_dist_run. cbv zeta. do 2 eexists.
  split; [reflexivity |]. split; [reflexivity |].
  assert (Hnone : forall c : Customer.row,
            (0 <? Customer.age c) = false -> age_group_of (Customer.age c) = None).
  { intros c E. apply Z.ltb_ge in E. age_cases (Customer.age c). reflexivity. }
  split.
  - intros c _ Hage. apply Hnone. apply Z.ltb_ge. exact Hage.
  - unfold categorical_counts. apply map_ext. intro lab. f_equal.
    apply label_count_missing. exact Hnone.
Qed.

(** C5 fails as stated: with a customer of age 0 the distribution is
    returned and no error is raised. *)
Lemma age_dist_not_raised :
  ~ (forall st : store,
       (exists c, In c (Customer.rows (customer_df st)) /\ Customer.age c <= 0) ->
       exists e : exn, age_dist st = Raises e).
Proof.
  intro Hclaim. destruct (Hclaim (sample_store [0; 25])) as [e He].
  - exists (customer_of_age 0). split; [left; reflexivity | simpl; lia].
  - discriminate He.
Qed.

(** C9 (as the code has it): no computation changes the transaction table
    or the loaded rows of the customer table; every computation but the
    age-group distribution leaves the two frames as they were, and that one
    stores the age-group column on the customer frame. *)
Theorem exec_frame :
  forall (op : operation) (st st' : store) (v : view),
    exec op st = Returns (v, st') ->
    sales_df st' = sales_df st /\
    Customer.rows (customer_df st') = Customer.rows (customer_df st) /\
    (op <> OpAgeDist -> st' = st) /\
    (op = OpAgeDist ->
     Customer.age_group (customer_df st') =
     Some (map (fun c => age_group_of (Customer.age c))
               (Customer.rows (customer_df st)))).
Proof.
  intros op st st' v Hrun.
  destruct op as [dr rs cs | df | key df | key df | df | | | |];
    try (injection Hrun as _ <-;
         repeat split; try reflexivity; intro; discriminate).
  - unfold exec, run_filter, bind, get, lift, ret in Hrun.
    destruct (filtered_sales (sales_df st) dr rs cs) as [X | e];
      [| discriminate Hrun].
    injection Hrun as _ <-. repeat split; try reflexivity. intro; discriminate.
  - unfold exec, bind in Hrun. rewrite age_dist_run in Hrun. cbv zeta in Hrun.
    injection Hrun as _ <-. repeat split; try reflexivity.
    intro Hne. contradiction.
Qed.

Lemma exec_frame_witness :
  exec OpAgeDist (sample_store [0; 25]) =
  Returns (VGroups [("10대", 0); ("20대", 1); ("30대", 0); ("40대", 0);
                    ("50대", 0); ("60대+", 0)],
           {| customer_df := {| Customer.rows := map customer_of_age [0; 25];
                                Customer.age_group := Some [None; Some "20대"] |};
              sales_df := sample_sales |}) /\
  sales_df {| customer_df := {| Customer.rows := map customer_of_age [0; 25];
                                Customer.age_group := Some [None; Some "20대"] |};
              sales_df := sample_sales |}
  = sales_df (sample_store [0; 25]).
Proof.
  split; [reflexivity |].
  eapply (exec_frame OpAgeDist (sample_store [0; 25])). reflexivity.
Defined.

(** C9 fails as stated: after the age-group distribution the customer
    frame holds a column it did not hold before. *)
Lemma age_group_stored_back :
  ~ (forall (op : operation) (st st' : store) (v : view),
       exec op st = Returns (v, st') -> st' = st).
Proof.
  intro Hclaim.
  pose proof (Hclaim OpAgeDist (sample_store [25]) _ _ eq_refl) as E.
  discriminate E.
Qed.

(** * Further properties of the script *)

(** ** The filter: errors, repetition, narrowing *)

(** X1: the only error of lines 73-78 is the IndexError of [date_range[0]]
    or [date_range[1]]: it is raised exactly when the tuple of the date
    widget holds fewer than two dates (a selection in progress). *)
Theorem filtered_sales_index_error :
  forall (T : list sale) (date_range : list Z) (regions categories : list string),
    (filtered_sales T date_range regions categories = Raises IndexError <->
     (List.length date_range < 2)%nat) /\
    (forall e : exn,
       filtered_sales T date_range regions categories = Raises e -> e = IndexError).
Proof.
  intros T dr rs cs. destruct dr as [| d0 [| d1 rest]]; simpl; split;
    try (split; intro; (reflexivity || lia || discriminate));
    intros e He; unfold filtered_sales in He; simpl in He;
    congruence.
Qed.

Lemma filtered_sales_returns (T : list sale) (dr : list Z) (rs cs : list string)
    (X : list sale) :
  filtered_sales T dr rs cs = Returns X ->
  exists d0 d1 rest,
    dr = d0 :: d1 :: rest /\
    X = filter (fun r =>
                  (dt_date (date r) >=? d0) && (dt_date (date r) <=? d1) &&
                  isin rs (region r) && isin cs (category r)) T.
Proof.
  destruct dr as [| d0 [| d1 rest]]; try discriminate.
  intro E. exists d0, d1, rest. split; [reflexivity |].
  unfold filtered_sales in E. simpl in E. congruence.
Qed.

Lemma filtered_sales_on (T T' : list sale) (dr : list Z) (rs cs : list string)
    (X : list sale) :
  filtered_sales T dr rs cs = Returns X ->
  exists f : sale -> bool,
    X = filter f T /\ filtered_sales T' dr rs cs = Returns (filter f T').
Proof.
  intro E. apply filtered_sales_returns in E.
  destruct E as [d0 [d1 [rest [-> ->]]]]. eexists. split; reflexivity.
Qed.

Lemma filter_twice {A : Type} (f : A -> bool) (l : list A) :
  filter f (filter f l) = filter f l.
Proof. apply filter_all. intros x Hx. apply filter_In in Hx. tauto. Qed.

Lemma filter_swap {A : Type} (f g : A -> bool) (l : list A) :
  filter f (filter g l) = filter g (filter f l).
Proof.
  induction l as [| a l IH]; simpl; [reflexivity |].
  destruct (g a) eqn:Eg, (f a) eqn:Ef; simpl; rewrite ?Eg, ?Ef, IH; reflexivity.
Qed.

(** X2: filtering the filtered table again with the same selection gives
    the filtered table back. *)
Theorem filtered_sales_idempotent :
  forall (T X : list sale) (date_range : list Z) (regions categories : list string),
    filtered_sales T date_range regions categories = Returns X ->
    filtered_sales X date_range regions categories = Returns X.
Proof.
  intros T X dr rs cs E.
  destruct (filtered_sales_on T X dr rs cs X E) as [f [HX ->]].
  f_equal. rewrite HX. apply filter_twice.
Qed.

Lemma filtered_sales_idempotent_witness :
  filtered_sales sample_sales [19723; 19724] ["North"] ["A"; "B"]
  = Returns [sale_north] /\
  filtered_sales [sale_north] [19723; 19724] ["North"] ["A"; "B"]
  = Returns [sale_north].
Proof.
  split; [reflexivity |].
  apply (filtered_sales_idempotent sample_sales). reflexivity.
Defined.

(** X3: two selections applied one after the other give the same table in
    either order. *)
Theorem filtered_sales_commute :
  forall (T X1 X2 : list sale) (dr1 dr2 : list Z) (rs1 cs1 rs2 cs2 : list string),
    filtered_sales T dr1 rs1 cs1 = Returns X1 ->
    filtered_sales T dr2 rs2 cs2 = Returns X2 ->
    filtered_sales X1 dr2 rs2 cs2 = filtered_sales X2 dr1 rs1 cs1.
Proof.
  intros T X1 X2 dr1 dr2 rs1 cs1 rs2 cs2 E1 E2.
  destruct (filtered_sales_on T X2 dr1 rs1 cs1 X1 E1) as [f [H1 ->]].
  destruct (filtered_sales_on T X1 dr2 rs2 cs2 X2 E2) as [g [H2 ->]].
  rewrite H1, H2. f_equal. apply filter_swap.
Qed.

Lemma filtered_sales_commute_witness :
  filtered_sales sample_sales [19723; 19723] ["North"; "South"] ["A"; "B"]
  = Returns [sale_north] /\
  filtered_sales sample_sales [19723; 19724] ["South"] ["B"]
  = Returns [sale_south] /\
  filtered_sales [sale_north] [19723; 19724] ["South"] ["B"]
  = filtered_sales [sale_south] [19723; 19723] ["North"; "South"] ["A"; "B"].
Proof.
  split; [reflexivity |]. split; [reflexivity |].
  apply (filtered_sales_commute sample_sales); reflexivity.
Defined.

Lemma filter_length_le_implied {A : Type} (f g : A -> bool) (l : list A) :
  (forall x, In x l -> f x = true -> g x = true) ->
  (List.length (filter f l) <= List.length (filter g l))%nat.
Proof.
  induction l as [| a l IH]; intro Himp; simpl; [lia |].
  assert (IH' : (List.length (filter f l) <= List.length (filter g l))%nat).
  { apply IH. intros x Hx. apply Himp. right. exact Hx. }
  destruct (f a) eqn:Ef.
  - rewrite (Himp a (or_introl eq_refl) Ef). simpl. lia.
  - destruct (g a); simpl; lia.
Qed.

(** X4: a wider selection (an enclosing date range, more regions, more
    categories) keeps every row of the narrower one, and its transaction
    count is at least as large. *)
Theorem filtered_sales_widening :
  forall (T X X' : list sale) (d0 d1 d0' d1' : Z)
         (regions regions' categories categories' : list string),
    d0' <= d0 -> d1 <= d1' ->
    incl regions regions' -> incl categories categories' ->
    filtered_sales T [d0; d1] regions categories = Returns X ->
    filtered_sales T [d0'; d1'] regions' categories' = Returns X' ->
    incl X X' /\ transaction_count X <= transaction_count X'.
Proof.
  intros T X X' d0 d1 d0' d1' rs rs' cs cs' Hlo Hhi Hrs Hcs E E'.
  rewrite filtered_sales_range in E, E'.
  injection E as <-. injection E' as <-.
  assert (Himp : forall r : sale,
            (dt_date (date r) >=? d0) && (dt_date (date r) <=? d1) &&
            isin rs (region r) && isin cs (category r) = true ->
            (dt_date (date r) >=? d0') && (dt_date (date r) <=? d1') &&
            isin rs' (region r) && isin cs' (category r) = true).
  { intros r Hr. apply keep_row_iff in Hr. apply keep_row_iff.
    destruct Hr as [Hd [Hr Hc]]. repeat split; [lia | lia | auto | auto]. }
  split.
  - intros r Hr. apply filter_In in Hr. apply filter_In.
    split; [tauto | apply Himp; tauto].
  - unfold transaction_count. apply Nat2Z.inj_le.
    apply filter_length_le_implied. intros r _. apply Himp.
Qed.

Lemma filtered_sales_widening_witness :
  incl [sale_north] sample_sales /\
  transaction_count [sale_north] <= transaction_count sample_sales.
Proof.
  apply (filtered_sales_widening sample_sales [sale_north] sample_sales
           19723 19723 19723 19724 ["North"] ["North"; "South"] ["A"] ["A"; "B"]).
  - lia.
  - lia.
  - intros x Hx. simpl in *. tauto.
  - intros x Hx. simpl in *. tauto.
  - reflexivity.
  - reflexivity.
Defined.

(** ** The KPI scalars *)

Lemma filter_length_le {A : Type} (f : A -> bool) (l : list A) :
  (List.length (filter f l) <= List.length l)%nat.
Proof.
  induction l as [| a l IH]; simpl; [lia |]. destruct (f a); simpl; lia.
Qed.

Lemma nunique_incl {K : Type} `{GroupKey K} (l l' : list K) :
  incl l l' -> nunique l <= nunique l'.
Proof.
  intro Hincl. unfold nunique. apply Nat2Z.inj_le.
  apply NoDup_incl_length; [apply unique_NoDup |].
  intros x Hx. apply unique_In. apply Hincl. apply unique_In. exact Hx.
Qed.

(** X5: filtering can only lower the KPIs that count: the filtered table
    has at most the transactions and at most the distinct customers of the
    whole table, and at most its total sales when no row has a negative
    total and the totals of the whole table add up to at most 2^63 - 1, so
    that no int64 sum wraps around. *)
Theorem filtered_kpis_bounded :
  forall (T X : list sale) (date_range : list Z) (regions categories : list string),
    filtered_sales T date_range regions categories = Returns X ->
    transaction_count X <= transaction_count T /\
    unique_customers X <= unique_customers T /\
    ((forall r, In r T -> 0 <= total r) ->
     list_sum (map total T) <= int64_max ->
     total_sales X <= total_sales T).
Proof.
  intros T X dr rs cs E. apply filtered_sales_returns in E.
  destruct E as [d0 [d1 [rest [_ ->]]]]. repeat split.
  - unfold transaction_count. apply Nat2Z.inj_le. apply filter_length_le.
  - unfold unique_customers. apply nunique_incl.
    intros x Hx. apply in_map_iff in Hx. destruct Hx as [r [<- Hr]].
    apply in_map. apply filter_In in Hr. tauto.
  - intros Hpos Hmax.
    pose proof (list_sum_filter_le
                  (fun r => (dt_date (date r) >=? d0) && (dt_date (date r) <=? d1) &&
                            isin rs (region r) && isin cs (category r)) T Hpos)
      as Hle.
    rewrite (total_sales_exact T Hpos Hmax), total_sales_exact; [lia | | lia].
    intros r Hr. apply filter_In in Hr. apply Hpos. tauto.
Qed.

Lemma filtered_kpis_bounded_witness :
  filtered_sales sample_sales [19723; 19724] ["North"] ["A"; "B"]
  = Returns [sale_north] /\
  transaction_count [sale_north] <= transaction_count sample_sales.
Proof.
  split; [reflexivity |].
  exact (proj1 (filtered_kpis_bounded sample_sales [sale_north] [19723; 19724]
                  ["North"] ["A"; "B"] eq_refl)).
Defined.

(** X6: the number of distinct customers is at most the number of
    transactions, it is 0 only on a table without rows, and a table with a
    row has at least one customer. *)
Theorem unique_customers_bounds :
  forall X : list sale,
    0 <= unique_customers X <= transaction_count X /\
    (unique_customers X = 0 <-> X = []).
Proof.
  intro X. unfold unique_customers, transaction_count, nunique.
  assert (Hle : (List.length (unique (map customer_id X)) <= List.length X)%nat).
  { rewrite <- (length_map customer_id X).
    apply NoDup_incl_length; [apply unique_NoDup |].
    intros x Hx. exact (proj1 (unique_In _ x) Hx). }
  split; [lia |]. split.
  - intro E. destruct X as [| r X]; [reflexivity |].
    assert (Hin : In (customer_id r) (unique (map customer_id (r :: X))))
      by (apply unique_In; left; reflexivity).
    destruct (unique (map customer_id (r :: X))); [contradiction | discriminate].
  - intros ->. reflexivity.
Qed.

(** ** The sidebar defaults *)

Lemma fold_left_min_In (l : list Z) (a : Z) : In (fold_left Z.min l a) (a :: l).
Proof.
  revert a. induction l as [| y l IH]; intro a; simpl; [left; reflexivity |].
  destruct (IH (Z.min a y)) as [E | Hin]; [| right; right; exact Hin].
  rewrite <- E. destruct (Z.min_spec a y) as [[_ ->] | [_ ->]]; auto.
Qed.

Lemma fold_left_max_In (l : list Z) (a : Z) : In (fold_left Z.max l a) (a :: l).
Proof.
  revert a. induction l as [| y l IH]; intro a; simpl; [left; reflexivity |].
  destruct (IH (Z.max a y)) as [E | Hin]; [| right; right; exact Hin].
  rewrite <- E. destruct (Z.max_spec a y) as [[_ ->] | [_ ->]]; auto.
Qed.

Lemma series_min_In (l : list Z) (m : Z) : series_min l = Some m -> In m l.
Proof.
  destruct l as [| a l]; simpl; [discriminate |].
  intros [= <-]. apply fold_left_min_In.
Qed.

Lemma series_max_In (l : list Z) (m : Z) : series_max l = Some m -> In m l.
Proof.
  destruct l as [| a l]; simpl; [discriminate |].
  intros [= <-]. apply fold_left_max_In.
Qed.

(** X8: the default date range of line 53 exists exactly when the table
    has a row; it is then a pair (first day, last day) with first day <=
    last day, both are days of rows of the table, and the day of every row
    lies between them. *)
Theorem default_date_range_spans :
  forall T : list sale,
    (default_date_range T = None <-> T = []) /\
    (forall date_range : list Z,
       default_date_range T = Some date_range ->
       exists lo hi : Z,
         date_range = [lo; hi] /\ lo <= hi /\
         (forall r, In r T -> lo <= dt_date (date r) <= hi) /\
         (exists r, In r T /\ dt_date (date r) = lo) /\
         (exists r, In r T /\ dt_date (date r) = hi)).
Proof.
  intro T. split.
  - destruct T as [| r T]; [split; reflexivity |].
    split; intro E; discriminate E.
  - intros dr Hdr. unfold default_date_range in Hdr.
    destruct (series_min (map date T)) as [lo |] eqn:Hlo; [| discriminate].
    destruct (series_max (map date T)) as [hi |] eqn:Hhi; [| discriminate].
    injection Hdr as <-. exists (dt_date lo), (dt_date hi).
    assert (Hall : forall r, In r T -> dt_date lo <= dt_date (date r) <= dt_date hi).
    { intros r Hr.
      assert (Hd : In (date r) (map date T)) by (apply in_map; exact Hr).
      split; apply dt_date_mono;
        [apply (series_min_le _ _ _ Hlo Hd) | apply (series_max_ge _ _ _ Hhi Hd)]. }
    pose proof (series_min_In _ _ Hlo) as Hlo_in.
    pose proof (series_max_In _ _ Hhi) as Hhi_in.
    apply in_map_iff in Hlo_in. destruct Hlo_in as [rlo [Elo Hrlo]].
    apply in_map_iff in Hhi_in. destruct Hhi_in as [rhi [Ehi Hrhi]].
    split; [reflexivity |]. split; [| split; [exact Hall | split]].
    + specialize (Hall rlo Hrlo). rewrite Elo in Hall. lia.
    + exists rlo. split; [exact Hrlo | rewrite Elo; reflexivity].
    + exists rhi. split; [exact Hrhi | rewrite Ehi; reflexivity].
Qed.

(** X9: the options and default selections of the two multiselects list
    each region, and each category, of the table exactly once. *)
Theorem default_selections_distinct :
  forall T : list sale,
    NoDup (default_regions T) /\
    (forall x, In x (default_regions T) <-> exists r, In r T /\ region r = x) /\
    NoDup (default_categories T) /\
    (forall x, In x (default_categories T) <-> exists r, In r T /\ category r = x).
Proof.
  intro T. unfold default_regions, default_categories.
  split; [apply unique_NoDup |]. split; [| split; [apply unique_NoDup |]].
  - intro x. rewrite unique_In, in_map_iff. split; intros [r Hr]; exists r; tauto.
  - intro x. rewrite unique_In, in_map_iff. split; intros [r Hr]; exists r; tauto.
Qed.

(** ** Groups *)

Lemma groupby_sum_keys {K : Type} `{GroupKey K} (key : sale -> K) (df : list sale) :
  map fst (groupby_sum key df) = sort_keys (unique (map key df)).
Proof.
  unfold groupby_sum. rewrite map_map. simpl. apply map_id.
Qed.

Lemma groupby_sum_keys_NoDup {K : Type} `{GroupKey K} (key : sale -> K)
    (df : list sale) :
  NoDup (map fst (groupby_sum key df)).
Proof.
  rewrite groupby_sum_keys.
  apply (Permutation_NoDup (Permutation_sym (sort_keys_perm _))).
  apply unique_NoDup.
Qed.

Lemma groupby_sum_In {K : Type} `{GroupKey K} (key : sale -> K) (df : list sale)
    (k : K) (v : Z) :
  In (k, v) (groupby_sum key df) <->
  (exists r, In r df /\ key r = k) /\ v = group_total key df k.
Proof.
  unfold groupby_sum. rewrite in_map_iff. split.
  - intros [k' [E Hk']]. injection E as -> <-.
    apply (Permutation_in _ (sort_keys_perm _)) in Hk'.
    apply unique_In, in_map_iff in Hk'. destruct Hk' as [r [E Hr]].
    split; [exists r; tauto | reflexivity].
  - intros [[r [Hr E]] ->]. exists k. split; [reflexivity |].
    apply (Permutation_in _ (Permutation_sym (sort_keys_perm _))).
    apply unique_In. rewrite <- E. apply in_map. exact Hr.
Qed.

Lemma group_sales_keys_NoDup (key : sale -> string) (X : list sale) :
  NoDup (map fst (group_sales key X)).
Proof.
  unfold group_sales.
  apply (Permutation_NoDup
           (Permutation_map fst (Permutation_sym (sort_values_desc_perm _)))).
  apply groupby_sum_keys_NoDup.
Qed.

(** X10: a per-group summary lists a key exactly when some row of the table
    has it (a group without rows is absent), lists it once, and gives it the
    sum of [total] over the rows of that key. *)
Theorem group_sales_entries :
  forall (key : sale -> string) (X : list sale),
    NoDup (map fst (group_sales key X)) /\
    (forall (k : string) (v : Z),
       In (k, v) (group_sales key X) <->
       (exists r, In r X /\ key r = k) /\
       v = series_sum (map total (filter (fun r => String.eqb (key r) k) X))).
Proof.
  intros key X. split; [apply group_sales_keys_NoDup |].
  unfold group_sales.
  - intros k v. split.
    + intro Hin. apply (Permutation_in _ (sort_values_desc_perm _)) in Hin.
      exact (proj1 (groupby_sum_In key X k v) Hin).
    + intro Hkv.
      apply (Permutation_in _ (Permutation_sym (sort_values_desc_perm _))).
      exact (proj2 (groupby_sum_In key X k v) Hkv).
Qed.

(** ** The daily series *)

Lemma insert_date_sorted (d : Timestamp) (l : list Timestamp) :
  Sorted Z.le l -> Sorted Z.le (insert_key d l).
Proof.
  induction l as [| a l IH]; intro Hs; simpl.
  - repeat constructor.
  - destruct (Z.leb_spec d a) as [Hle | Hgt].
    + constructor; [exact Hs | constructor; exact Hle].
    + apply Sorted_inv in Hs. destruct Hs as [Hs Hhd].
      constructor; [apply IH; exact Hs |].
      destruct l as [| b l]; simpl; [constructor; lia |].
      destruct (Z.leb_spec d b); constructor;
        [lia | apply HdRel_inv in Hhd; exact Hhd].
Qed.

Lemma sort_dates_sorted (l : list Timestamp) : Sorted Z.le (sort_keys l).
Proof.
  induction l as [| d l IH]; simpl; [constructor |].
  apply insert_date_sorted. exact IH.
Qed.

Lemma strictly_sorted (l : list Z) :
  StronglySorted Z.le l -> NoDup l -> StronglySorted Z.lt l.
Proof.
  induction 1 as [| a l Hs IH Hall]; intro Hnd; [constructor |].
  inversion Hnd as [| ? ? Hnotin Hnd']; subst.
  constructor; [apply IH; exact Hnd' |].
  rewrite Forall_forall in *. intros x Hx.
  specialize (Hall x Hx). destruct (Z.eq_dec a x) as [-> | N]; [contradiction | lia].
Qed.

(** X11: the daily series is in strictly ascending order of its date
    column; it has a row for a timestamp exactly when the table has a row
    of that timestamp (no date is listed twice and none is filled in), and
    the period total of a row is the sum of [total] over the table rows of
    its timestamp. *)
Theorem daily_sales_ascending :
  forall X : list sale,
    StronglySorted Z.lt (map fst (daily_sales X)) /\
    (forall d : Timestamp,
       In d (map fst (daily_sales X)) <-> exists r, In r X /\ date r = d) /\
    (forall (d : Timestamp) (v : Z),
       In (d, v) (daily_sales X) ->
       v = series_sum (map total (filter (fun r => date r =? d) X))).
Proof.
  intro X. unfold daily_sales. split; [| split].
  - apply strictly_sorted; [| apply groupby_sum_keys_NoDup].
    rewrite groupby_sum_keys. apply Sorted_StronglySorted.
    + intros a b c; lia.
    + apply sort_dates_sorted.
  - intro d. rewrite groupby_sum_keys. split.
    + intro Hd. apply (Permutation_in _ (sort_keys_perm _)) in Hd.
      apply unique_In, in_map_iff in Hd. destruct Hd as [r Hr]. exists r; tauto.
    + intros [r [Hr E]].
      apply (Permutation_in _ (Permutation_sym (sort_keys_perm _))).
      apply unique_In. rewrite <- E. apply in_map. exact Hr.
  - intros d v Hin. apply groupby_sum_In in Hin. destruct Hin as [_ ->].
    reflexivity.
Qed.

(** X12: every entry of the cumulative column is the sum of the period
    totals up to and including its own row. *)
Theorem daily_cumulative_prefix_sum :
  forall (X : list sale) (i : nat),
    (i < List.length (daily_sales X))%nat ->
    nth i (daily_cumulative X) 0 =
    series_sum (firstn (S i) (map snd (daily_sales X))).
Proof.
  intros X i Hi. unfold daily_cumulative, cumsum.
  rewrite cumsum_from_nth by (rewrite length_map; exact Hi).
  rewrite Z.add_0_l, <- series_sum_wrap. reflexivity.
Qed.

Lemma daily_cumulative_prefix_sum_witness :
  (1 < List.length (daily_sales sample_sales))%nat /\
  nth 1 (daily_cumulative sample_sales) 0 = 300.
Proof.
  split; [simpl; lia |].
  rewrite (daily_cumulative_prefix_sum sample_sales 1); [reflexivity | simpl; lia].
Defined.

(** ** Rankings *)

Lemma firstn_incl {A : Type} (k : nat) (l : list A) : incl (firstn k l) l.
Proof.
  intros x Hx. rewrite <- (firstn_skipn k l). apply in_or_app. left. exact Hx.
Qed.

Lemma firstn_NoDup {A : Type} (k : nat) (l : list A) :
  NoDup l -> NoDup (firstn k l).
Proof.
  revert k. induction l as [| a l IH]; intros k Hnd; destruct k; simpl;
    try constructor.
  - inversion Hnd; subst. intro Hin. apply firstn_incl in Hin. contradiction.
  - inversion Hnd; subst. apply IH. assumption.
Qed.

Lemma head_firstn {A : Type} (n : Z) (l : list A) :
  exists k : nat, head n l = firstn k l.
Proof. unfold head. destruct (0 <=? n); eexists; reflexivity. Qed.

Lemma list_sum_firstn_le (k : nat) (l : list Z) :
  (forall x, In x l -> 0 <= x) ->
  0 <= list_sum (firstn k l) <= list_sum l.
Proof.
  revert k. induction l as [| a l IH]; intros k Hpos; destruct k; simpl; try lia.
  - assert (0 <= a) by (apply Hpos; left; reflexivity).
    assert (0 <= list_sum l)
      by (apply list_sum_nonneg; intros x Hx; apply Hpos; right; exact Hx).
    lia.
  - assert (0 <= a) by (apply Hpos; left; reflexivity).
    assert (0 <= list_sum (firstn k l) <= list_sum l)
      by (apply IH; intros x Hx; apply Hpos; right; exact Hx).
    lia.
Qed.

Lemma group_sales_exact (key : sale -> string) (X : list sale) :
  (forall r, In r X -> 0 <= total r) ->
  list_sum (map total X) <= int64_max ->
  (forall x, In x (map snd (group_sales key X)) -> 0 <= x) /\
  list_sum (map snd (group_sales key X)) = list_sum (map total X).
Proof.
  intros Hpos Hmax.
  destruct (groupby_sum_exact key X Hpos Hmax) as [Hge Hsum].
  assert (Hperm : Permutation (map snd (group_sales key X))
                              (map snd (groupby_sum key X)))
    by (apply Permutation_map; apply sort_values_desc_perm).
  split.
  - intros x Hx. apply Hge. exact (Permutation_in _ Hperm Hx).
  - rewrite (list_sum_perm _ _ Hperm). exact Hsum.
Qed.

(** X13: a ranking lists entries of the per-group summary, each key at
    most once, and a shorter ranking is the beginning of a longer one. *)
Theorem top_n_nested :
  forall (key : sale -> string) (X : list sale) (n m : Z),
    0 <= n <= m ->
    incl (top_n key m X) (group_sales key X) /\
    NoDup (map fst (top_n key m X)) /\
    exists rest : list (string * Z),
      top_n key m X = (top_n key n X ++ rest)%list.
Proof.
  intros key X n m Hnm. unfold top_n. rewrite !head_pos by lia.
  split; [apply firstn_incl |]. split.
  - rewrite <- firstn_map. apply firstn_NoDup. apply group_sales_keys_NoDup.
  - exists (skipn (Z.to_nat n) (firstn (Z.to_nat m) (group_sales key X))).
    rewrite <- (firstn_skipn (Z.to_nat n) (firstn (Z.to_nat m) (group_sales key X)))
      at 1.
    f_equal. rewrite firstn_firstn. f_equal. lia.
Qed.

Lemma top_n_nested_witness :
  0 <= 1 <= 10 /\
  top_products sample_sales = (top_n product_name 1 sample_sales ++ [("Laptop", 100)])%list.
Proof.
  split; [lia |].
  destruct (top_n_nested product_name sample_sales 1 10 ltac:(lia))
    as [_ [_ [rest Hrest]]].
  reflexivity.
Defined.

(** X14: when no row has a negative total and the totals add up to at
    most 2^63 - 1, so that no int64 sum wraps around, the values of a
    ranking add up to at most the total sales KPI, and to no less than 0. *)
Theorem top_n_share_of_total :
  forall (key : sale -> string) (X : list sale) (n : Z),
    (forall r, In r X -> 0 <= total r) ->
    list_sum (map total X) <= int64_max ->
    0 <= series_sum (map snd (top_n key n X)) <= total_sales X.
Proof.
  intros key X n Hpos Hmax. unfold top_n.
  destruct (head_firstn n (group_sales key X)) as [k ->].
  destruct (group_sales_exact key X Hpos Hmax) as [Hge Hsum].
  pose proof (list_sum_firstn_le k _ Hge) as Hle.
  rewrite <- firstn_map, (total_sales_exact X Hpos Hmax), series_sum_exact.
  - lia.
  - intros x Hx. apply Hge. exact (firstn_incl k _ x Hx).
  - lia.
Qed.

Lemma top_n_share_of_total_witness :
  0 <= series_sum (map snd (top_products sample_sales)) <= total_sales sample_sales.
Proof.
  apply (top_n_share_of_total product_name sample_sales 10).
  - intros r [<- | [<- | []]]; simpl; lia.
  - unfold int64_max. simpl. lia.
Defined.

(** ** Customer distributions *)

Lemma count_of_cons {K : Type} `{GroupKey K} (k x : K) (l : list K) :
  count_of k (x :: l) = (if key_eqb x k then 1 else 0) + count_of k l.
Proof.
  unfold count_of. simpl.
  destruct (key_eqb_spec k x) as [-> | N].
  - rewrite key_eqb_refl. simpl List.length. lia.
  - destruct (key_eqb_spec x k) as [-> | _]; [contradiction | lia].
Qed.

Lemma count_of_positive {K : Type} `{GroupKey K} (k : K) (l : list K) :
  In k l -> 1 <= count_of k l.
Proof.
  induction l as [| x l IH]; intro Hin; [contradiction |].
  rewrite count_of_cons.
  assert (0 <= count_of k l) by (unfold count_of; lia).
  destruct (key_eqb_spec x k) as [E | N]; [lia |].
  destruct Hin as [E | Hin]; [contradiction | apply IH in Hin; lia].
Qed.

Lemma counts_partition {K : Type} `{GroupKey K} (ks l : list K) :
  NoDup ks -> incl l ks ->
  list_sum (map (fun k => count_of k l) ks) = Z.of_nat (List.length l).
Proof.
  intro Hnd. induction l as [| x l IH]; intro Hincl.
  - clear Hnd Hincl. induction ks as [| k ks IHk]; simpl; [reflexivity |].
    rewrite IHk. reflexivity.
  - rewrite (map_ext _ _ (fun k => count_of_cons k x l)).
    rewrite list_sum_map_add, (sum_indicator _ _ _ Hnd).
    assert (E : existsb (key_eqb x) ks = true).
    { apply existsb_key_In. apply Hincl. left. reflexivity. }
    rewrite E, IH.
    + cbn [List.length]. rewrite Nat2Z.inj_succ. lia.
    + intros y Hy. apply Hincl. right. exact Hy.
Qed.

Lemma filter_map_length {A B : Type} (f : B -> bool) (g : A -> B) (l : list A) :
  List.length (filter f (map g l)) = List.length (filter (fun a => f (g a)) l).
Proof.
  induction l as [| a l IH]; simpl; [reflexivity |].
  destruct (f (g a)); simpl; rewrite IH; reflexivity.
Qed.

(** What a [value_counts] result, or a rearrangement of it by descending
    count, tells about the column. *)
Lemma value_counts_facts {K : Type} `{GroupKey K} (l : list K) (d : list (K * Z)) :
  Permutation d (value_counts l) ->
  list_sum (map snd d) = Z.of_nat (List.length l) /\
  NoDup (map fst d) /\
  (forall k c, In (k, c) d <-> In k l /\ c = count_of k l) /\
  (forall k c, In (k, c) d -> 1 <= c).
Proof.
  intro Hperm.
  assert (Hperm' : Permutation d (map (fun k => (k, count_of k l)) (unique l))).
  { eapply perm_trans; [exact Hperm | apply sort_values_desc_perm]. }
  assert (Hin : forall k c, In (k, c) d <-> In k l /\ c = count_of k l).
  { intros k c. split.
    - intro Hd. apply (Permutation_in _ Hperm') in Hd.
      apply in_map_iff in Hd. destruct Hd as [k' [E Hk']].
      injection E as <- <-. split; [exact (proj1 (unique_In l k') Hk') | reflexivity].
    - intros [Hk ->]. apply (Permutation_in _ (Permutation_sym Hperm')).
      apply in_map_iff. exists k. split; [reflexivity | apply unique_In; exact Hk]. }
  split; [| split; [| split; [exact Hin |]]].
  - rewrite (list_sum_perm _ _ (Permutation_map snd Hperm')), map_map. simpl.
    apply counts_partition; [apply unique_NoDup |].
    intros x Hx. apply unique_In. exact Hx.
  - apply (Permutation_NoDup (Permutation_sym (Permutation_map fst Hperm'))).
    rewrite map_map. simpl. rewrite map_id. apply unique_NoDup.
  - intros k c Hd. apply Hin in Hd. destruct Hd as [Hk ->].
    apply count_of_positive. exact Hk.
Qed.

(** X15: the gender, region and segment distributions of lines 186, 199
    and 213 raise nothing and leave the two frames as they were; the result
    is in descending order of count, lists each value of the column once
    with the number of customers that have it (at least one), and the
    counts add up to the number of customers. *)
Theorem customer_distributions :
  forall (st : store) (op : M (list (string * Z))) (column : Customer.row -> string),
    (op = gender_dist /\ column = Customer.gender) \/
    (op = region_customers /\ column = Customer.region) \/
    (op = segment_dist /\ column = Customer.segment) ->
    exists d : list (string * Z),
      op st = Returns (d, st) /\
      StronglySorted value_ge d /\
      NoDup (map fst d) /\
      (forall k c,
         In (k, c) d <->
         In k (map column (Customer.rows (customer_df st))) /\
         c = Z.of_nat (List.length (filter (fun r => String.eqb k (column r))
                                           (Customer.rows (customer_df st))))) /\
      (forall k c, In (k, c) d -> 1 <= c) /\
      list_sum (map snd d) = Z.of_nat (List.length (Customer.rows (customer_df st))).
Proof.
  intros st op column Hop.
  set (col := map column (Customer.rows (customer_df st))).
  assert (Hcount : forall k : string,
            count_of k col =
            Z.of_nat (List.length (filter (fun r => String.eqb k (column r))
                                          (Customer.rows (customer_df st))))).
  { intro k. unfold count_of, col. rewrite filter_map_length. reflexivity. }
  assert (Hfacts : forall d : list (string * Z),
            Permutation d (value_counts col) -> StronglySorted value_ge d ->
            StronglySorted value_ge d /\
            NoDup (map fst d) /\
            (forall k c,
               In (k, c) d <->
               In k col /\
               c = Z.of_nat (List.length (filter (fun r => String.eqb k (column r))
                                                 (Customer.rows (customer_df st))))) /\
            (forall k c, In (k, c) d -> 1 <= c) /\
            list_sum (map snd d) = Z.of_nat (List.length (Customer.rows (customer_df st)))).
  { intros d Hperm Hsorted.
    destruct (value_counts_facts col d Hperm) as [Hsum [Hnd [Hin Hpos]]].
    split; [exact Hsorted |]. split; [exact Hnd |]. split; [| split].
    - intros k c. rewrite Hin, Hcount. reflexivity.
    - exact Hpos.
    - rewrite Hsum. unfold col. rewrite length_map. reflexivity. }
  destruct Hop as [[-> ->] | [[-> ->] | [-> ->]]]; eexists;
    (split; [reflexivity |]); apply Hfacts;
    try apply sort_values_desc_sorted; try apply Permutation_refl.
  apply sort_values_desc_perm.
Qed.

Lemma customer_distributions_witness :
  exists d : list (string * Z),
    gender_dist (sample_store [25; 40]) = Returns (d, sample_store [25; 40]) /\
    StronglySorted value_ge d.
Proof.
  destruct (customer_distributions (sample_store [25; 40]) gender_dist Customer.gender)
    as [d [Hrun [Hsorted _]]].
  - left. split; reflexivity.
  - exists d. split; assumption.
Defined.

(** X16: an age gets no label exactly when it is 0 or less, or above
    100. *)
Theorem age_group_of_missing :
  forall a : Z, age_group_of a = None <-> a <= 0 \/ 100 < a.
Proof.
  intro a. split.
  - age_cases a; intro E; (discriminate E || lia).
  - intro Ha. age_cases a; reflexivity.
Qed.

(** X17: the age-group distribution of lines 170-172 has the six labels in
    their order; no count is negative; the counts add up to the number of
    customers with an age in (0,100], so to at most the number of
    customers. *)
Theorem age_dist_counts :
  forall st : store,
  exists (d : list (string * Z)) (st' : store),
    age_dist st = Returns (d, st') /\
    map fst d = age_labels /\
    (forall e, In e d -> 0 <= snd e) /\
    list_sum (map snd d) =
    Z.of_nat (List.length (filter (fun c => (0 <? Customer.age c) &&
                                            (Customer.age c <=? 100))
                                  (Customer.rows (customer_df st)))) /\
    list_sum (map snd d) <= Z.of_nat (List.length (Customer.rows (customer_df st))).
Proof.
  intro st. rewrite age_dist_run. cbv zeta. do 2 eexists.
  split; [reflexivity |]. split; [reflexivity |]. split; [| split].
  - intros e He. unfold categorical_counts in He. apply in_map_iff in He.
    destruct He as [lab [<- _]]. unfold label_count. simpl. lia.
  - apply age_counts_total.
  - rewrite age_counts_total. apply Nat2Z.inj_le. apply filter_length_le.
Qed.

(** X18: running the age-group distribution again gives the same
    distribution and leaves the customer frame as the first run left it. *)
Theorem age_dist_idempotent :
  forall (st st' : store) (d : list (string * Z)),
    age_dist st = Returns (d, st') ->
    age_dist st' = Returns (d, st').
Proof.
  intros st st' d Hrun. rewrite age_dist_run in Hrun. cbv zeta in Hrun.
  injection Hrun as <- <-. reflexivity.
Qed.

Lemma age_dist_idempotent_witness :
  exists (d : list (string * Z)) (st' : store),
    age_dist (sample_store [0; 25]) = Returns (d, st') /\
    age_dist st' = Returns (d, st').
Proof.
  do 2 eexists. split; [reflexivity |].
  apply (age_dist_idempotent (sample_store [0; 25])). reflexivity.
Defined.

(** ** Empty views, and a bar against a selection *)

Lemma unique_nil_iff {K : Type} `{GroupKey K} (l : list K) :
  unique l = [] <-> l = [].
Proof.
  split; [| intros ->; reflexivity].
  intro E. destruct l as [| x l]; [reflexivity |].
  assert (Hin : In x (unique (x :: l))) by (apply unique_In; left; reflexivity).
  rewrite E in Hin. contradiction.
Qed.

Lemma groupby_sum_nil_iff {K : Type} `{GroupKey K} (key : sale -> K)
    (X : list sale) :
  groupby_sum key X = [] <-> X = [].
Proof.
  split; [| intros ->; reflexivity].
  intro E. apply (f_equal (@List.length _)) in E.
  rewrite groupby_sum_length in E. apply length_zero_iff_nil in E.
  apply (proj1 (unique_nil_iff _)) in E. apply map_eq_nil in E. exact E.
Qed.

(** X20: a chart without entries means a table without rows: a per-group
    summary, a ranking (of a positive length) and the daily series are
    empty exactly when the filtered table is, which is when the transaction
    count is 0. *)
Theorem empty_views :
  forall (key : sale -> string) (X : list sale) (n : Z),
    0 < n ->
    (group_sales key X = [] <-> X = []) /\
    (top_n key n X = [] <-> X = []) /\
    (daily_sales X = [] <-> X = []) /\
    (transaction_count X = 0 <-> X = []).
Proof.
  intros key X n Hn.
  assert (Hg : group_sales key X = [] <-> X = []).
  { unfold group_sales. rewrite <- (groupby_sum_nil_iff key X). split.
    - intro E. apply Permutation_nil. rewrite <- E.
      apply sort_values_desc_perm.
    - intros ->. reflexivity. }
  split; [exact Hg |]. split; [| split].
  - rewrite <- Hg. unfold top_n. rewrite head_pos by lia.
    destruct (Z.to_nat n) as [| k] eqn:Ek; [lia |].
    destruct (group_sales key X); simpl; split; intro E;
      (reflexivity || discriminate E).
  - apply groupby_sum_nil_iff.
  - unfold transaction_count. destruct X; simpl; split; intro E;
      (reflexivity || discriminate E || lia).
Qed.

Lemma empty_views_witness :
  0 < 10 /\ (top_products [] = [] <-> @nil sale = []).
Proof.
  split; [lia |].
  exact (proj1 (proj2 (empty_views product_name [] 10 ltac:(lia)))).
Defined.

Lemma filter_and {A : Type} (f g : A -> bool) (l : list A) :
  filter g (filter f l) = filter (fun x => f x && g x) l.
Proof.
  induction l as [| a l IH]; simpl; [reflexivity |].
  destruct (f a); simpl; [destruct (g a) |]; rewrite IH; reflexivity.
Qed.

(** X21: the value that the region summary of a filtered table gives a
    region is the total sales KPI of the table filtered with that region
    alone, under the same date range and categories; and the region is one
    of the selected ones. *)
Theorem region_bar_is_single_region_total :
  forall (T X : list sale) (d0 d1 : Z) (regions categories : list string)
         (k : string) (v : Z),
    filtered_sales T [d0; d1] regions categories = Returns X ->
    In (k, v) (region_sales X) ->
    In k regions /\
    exists Xk : list sale,
      filtered_sales T [d0; d1] [k] categories = Returns Xk /\
      total_sales Xk = v.
Proof.
  intros T X d0 d1 rs cs k v E Hin.
  rewrite filtered_sales_range in E. injection E as <-.
  unfold region_sales, group_sales in Hin.
  apply (Permutation_in _ (sort_values_desc_perm _)) in Hin.
  apply groupby_sum_In in Hin. destruct Hin as [[r [Hr Hk]] ->].
  apply filter_In in Hr. destruct Hr as [_ Hr]. apply keep_row_iff in Hr.
  assert (Hkrs : In k rs) by (rewrite <- Hk; tauto).
  split; [exact Hkrs |].
  eexists. split; [apply filtered_sales_range |].
  unfold total_sales, group_total. f_equal. f_equal.
  rewrite filter_and. apply filter_ext. intro r'.
  cbn [key_eqb string_GroupKey isin existsb]. rewrite orb_false_r.
  destruct (String.eqb_spec (region r') k) as [Ek | Nk].
  - assert (Hisin : isin rs (region r') = true)
      by (apply isin_In; rewrite Ek; exact Hkrs).
    rewrite Hisin.
    destruct (dt_date (date r') >=? d0), (dt_date (date r') <=? d1),
      (isin cs (category r')); reflexivity.
  - destruct (dt_date (date r') >=? d0), (dt_date (date r') <=? d1),
      (isin rs (region r')), (isin cs (category r')); reflexivity.
Qed.

Lemma region_bar_is_single_region_total_witness :
  In "South" ["North"; "South"] /\
  exists Xk : list sale,
    filtered_sales sample_sales [19723; 19724] ["South"] ["A"; "B"] = Returns Xk /\
    total_sales Xk = 200.
Proof.
  apply (region_bar_is_single_region_total sample_sales sample_sales
           19723 19724 ["North"; "South"] ["A"; "B"] "South" 200).
  - reflexivity.
  - left. reflexivity.
Defined.
